(** * Filter state and search plumbing of the Aadhaar Intelligence dashboard

    A shallow embedding of
    - [src/unnamed/part_002] (types: [FilterOptions], [AppliedFilters]),
    - [src/unnamed/part_001] (the [useFilters] hook: setters, [fetchOptions],
      [buildQueryString], [filteredDistricts]),
    - [src/services/aadhaarApi.ts] ([buildQueryString] helper, same body),
    - [src/components/Header.tsx] (the search effect driven by the debounced
      query),
    and a model of the debounce hook [src/hooks/useDebounce], whose source is
    not part of the files at hand.

    JavaScript values are represented as follows: an optional property
    ([x?: T]) is an [option]; a property set to [undefined] is [None], which
    is exactly what a read of it returns.  Strings handed to
    [URLSearchParams] are [String.string] read as UTF-8 byte sequences;
    numbers used as filters are integers ([Z]). *)

From Stdlib Require Import String Ascii ZArith List Bool Lia Permutation.
From Stdlib Require Import Numbers.DecimalString.
Import ListNotations.
Open Scope string_scope.

(* ------------------------------------------------------------------ *)
(** ** Types ([src/unnamed/part_002]) *)

Inductive MetricType := Enrolment | Biometric | Demographic.
Inductive AgeGroup := AgeAll | Age0_5 | Age5_18 | Age18_60 | Age60plus.
Inductive IndexType := Demand | Stress | Gap | CompositeRisk.

(** The string tags the TypeScript unions stand for. *)
Definition MetricType_str (m : MetricType) : string :=
  match m with
  | Enrolment => "Enrolment"
  | Biometric => "Biometric"
  | Demographic => "Demographic"
  end.

Definition AgeGroup_str (a : AgeGroup) : string :=
  match a with
  | AgeAll => "All"
  | Age0_5 => "0-5"
  | Age5_18 => "5-18"
  | Age18_60 => "18-60"
  | Age60plus => "60+"
  end.

Definition IndexType_str (i : IndexType) : string :=
  match i with
  | Demand => "Demand"
  | Stress => "Stress"
  | Gap => "Gap"
  | CompositeRisk => "CompositeRisk"
  end.

Record StateOption := mkStateOption { s_code : string; s_name : string }.

Record DistrictOption :=
  mkDistrictOption { d_code : string; d_name : string; stateCode : string }.

Record MonthOption := mkMonthOption { m_value : Z; m_label : string }.

Record FilterOptions := mkFilterOptions {
  states : list StateOption;
  districts : list DistrictOption;
  years : list Z;
  months : list MonthOption;
  metricTypes : list MetricType;
  ageGroups : list AgeGroup;
  indexTypes : list IndexType
}.

Record AppliedFilters := mkAppliedFilters {
  state : option string;
  district : option string;
  year : option Z;
  month : option Z;
  metricType : option MetricType;
  ageGroup : option AgeGroup;
  indexType : option IndexType
}.

(** [const INITIAL_FILTERS: AppliedFilters = {};] *)
Definition INITIAL_FILTERS : AppliedFilters :=
  mkAppliedFilters None None None None None None None.

(* ------------------------------------------------------------------ *)
(** ** JavaScript helpers *)

(** Truthiness of the values the filters hold: a string is truthy when it
    is not empty, a number when it is not zero. *)
Definition truthy_str (s : string) : bool :=
  match s with EmptyString => false | String _ _ => true end.

Definition truthy_num (z : Z) : bool := negb (Z.eqb z 0).

(** Strict (in)equality [a !== b] on [string | undefined]. *)
Definition opt_str_eqb (a b : option string) : bool :=
  match a, b with
  | None, None => true
  | Some x, Some y => String.eqb x y
  | _, _ => false
  end.

(** [Number.prototype.toString()] on an integer: decimal text with a
    leading [-] for negative values. *)
Definition number_toString (z : Z) : string :=
  NilEmpty.string_of_int (Z.to_int z).

(* ------------------------------------------------------------------ *)
(** ** Setters of [useFilters] ([src/unnamed/part_001], lines 103-145)

    Each setter is the functional update handed to [setFiltersState]. *)

(** [{ ...prev, state }], then [district = undefined] when
    [state !== prev.state]. *)
Definition setStateFilter (st : option string) (prev : AppliedFilters)
  : AppliedFilters :=
  let newFilters :=
    mkAppliedFilters st (district prev) (year prev) (month prev)
      (metricType prev) (ageGroup prev) (indexType prev) in
  if negb (opt_str_eqb st (state prev)) then
    mkAppliedFilters (state newFilters) None (year newFilters)
      (month newFilters) (metricType newFilters) (ageGroup newFilters)
      (indexType newFilters)
  else newFilters.

Definition setDistrictFilter (d : option string) (prev : AppliedFilters)
  : AppliedFilters :=
  mkAppliedFilters (state prev) d (year prev) (month prev)
    (metricType prev) (ageGroup prev) (indexType prev).

Definition setYearFilter (y : option Z) (prev : AppliedFilters)
  : AppliedFilters :=
  mkAppliedFilters (state prev) (district prev) y (month prev)
    (metricType prev) (ageGroup prev) (indexType prev).

Definition setMonthFilter (m : option Z) (prev : AppliedFilters)
  : AppliedFilters :=
  mkAppliedFilters (state prev) (district prev) (year prev) m
    (metricType prev) (ageGroup prev) (indexType prev).

Definition setMetricTypeFilter (m : option MetricType) (prev : AppliedFilters)
  : AppliedFilters :=
  mkAppliedFilters (state prev) (district prev) (year prev) (month prev)
    m (ageGroup prev) (indexType prev).

Definition setAgeGroupFilter (a : option AgeGroup) (prev : AppliedFilters)
  : AppliedFilters :=
  mkAppliedFilters (state prev) (district prev) (year prev) (month prev)
    (metricType prev) a (indexType prev).

Definition setIndexTypeFilter (i : option IndexType) (prev : AppliedFilters)
  : AppliedFilters :=
  mkAppliedFilters (state prev) (district prev) (year prev) (month prev)
    (metricType prev) (ageGroup prev) i.

(** [setFilters(newFilters)] replaces the state verbatim. *)
Definition setFilters (newFilters : AppliedFilters) (_ : AppliedFilters)
  : AppliedFilters := newFilters.

Definition clearFilters (_ : AppliedFilters) : AppliedFilters :=
  INITIAL_FILTERS.

(** The calls a page can make on the filter state. *)
Inductive FilterAction :=
| ActState (v : option string)
| ActDistrict (v : option string)
| ActYear (v : option Z)
| ActMonth (v : option Z)
| ActMetricType (v : option MetricType)
| ActAgeGroup (v : option AgeGroup)
| ActIndexType (v : option IndexType)
| ActSetFilters (f : AppliedFilters)
| ActClear.

Definition applyAction (a : FilterAction) : AppliedFilters -> AppliedFilters :=
  match a with
  | ActState v => setStateFilter v
  | ActDistrict v => setDistrictFilter v
  | ActYear v => setYearFilter v
  | ActMonth v => setMonthFilter v
  | ActMetricType v => setMetricTypeFilter v
  | ActAgeGroup v => setAgeGroupFilter v
  | ActIndexType v => setIndexTypeFilter v
  | ActSetFilters f => setFilters f
  | ActClear => clearFilters
  end.

(** The states the filter takes, one per call, starting from [f0]. *)
Fixpoint runActions (f0 : AppliedFilters) (acts : list FilterAction)
  : list AppliedFilters :=
  match acts with
  | [] => []
  | a :: rest => let f1 := applyAction a f0 in f1 :: runActions f1 rest
  end.

Fixpoint finalFilters (f0 : AppliedFilters) (acts : list FilterAction)
  : AppliedFilters :=
  match acts with
  | [] => f0
  | a :: rest => finalFilters (applyAction a f0) rest
  end.

(** A field-by-field view of [AppliedFilters], used to state frame
    properties uniformly. *)
Inductive Field :=
  FState | FDistrict | FYear | FMonth | FMetricType | FAgeGroup | FIndexType.

Inductive FieldVal :=
| VStr (v : option string)
| VNum (v : option Z)
| VMetric (v : option MetricType)
| VAge (v : option AgeGroup)
| VIndex (v : option IndexType).

Definition getField (f : AppliedFilters) (fld : Field) : FieldVal :=
  match fld with
  | FState => VStr (state f)
  | FDistrict => VStr (district f)
  | FYear => VNum (year f)
  | FMonth => VNum (month f)
  | FMetricType => VMetric (metricType f)
  | FAgeGroup => VAge (ageGroup f)
  | FIndexType => VIndex (indexType f)
  end.

(* ------------------------------------------------------------------ *)
(** ** [URLSearchParams] and [buildQueryString]

    [buildQueryString] in [src/unnamed/part_001] (lines 148-161) and the
    helper of the same name in [src/services/aadhaarApi.ts] (lines 49-62)
    have the same body; both read the filters and return a string. *)

(** Upper-case hexadecimal digit of [n < 16]. *)
Definition hex_digit (n : nat) : ascii :=
  ascii_of_nat (if Nat.ltb n 10 then 48 + n else 55 + n).

(** The [application/x-www-form-urlencoded] byte serializer used by
    [URLSearchParams.prototype.toString]: space becomes [+], the bytes
    [*-._], digits and ASCII letters are kept, every other byte is written
    as [%XX]. *)
Definition form_encode_byte (c : ascii) : string :=
  let n := nat_of_ascii c in
  if Nat.eqb n 32 then "+"
  else if Nat.eqb n 42 || Nat.eqb n 45 || Nat.eqb n 46
          || (Nat.leb 48 n && Nat.leb n 57)
          || (Nat.leb 65 n && Nat.leb n 90)
          || Nat.eqb n 95
          || (Nat.leb 97 n && Nat.leb n 122)
  then String c EmptyString
  else String "%" (String (hex_digit (n / 16))
                     (String (hex_digit (n mod 16)) EmptyString)).

Fixpoint form_encode (s : string) : string :=
  match s with
  | EmptyString => EmptyString
  | String c rest => form_encode_byte c ++ form_encode rest
  end.

(** A [URLSearchParams] object: its list of name-value pairs, in order. *)
Definition URLSearchParams := list (string * string).

(** [params.append(name, value)] adds the pair at the end. *)
Definition params_append (name value : string) (p : URLSearchParams)
  : URLSearchParams := (p ++ [(name, value)])%list.

Fixpoint join_amp (l : list string) : string :=
  match l with
  | [] => EmptyString
  | [x] => x
  | x :: rest => x ++ "&" ++ join_amp rest
  end.

(** [params.toString()] *)
Definition params_toString (p : URLSearchParams) : string :=
  join_amp (map (fun kv => form_encode (fst kv) ++ "=" ++ form_encode (snd kv)) p).

(** [if (filters.x) params.append('x', <serialised x>)] for the three
    kinds of values the filters hold. *)
Definition append_if_str (name : string) (v : option string)
  (p : URLSearchParams) : URLSearchParams :=
  match v with
  | Some s => if truthy_str s then params_append name s p else p
  | None => p
  end.

Definition append_if_num (name : string) (v : option Z)
  (p : URLSearchParams) : URLSearchParams :=
  match v with
  | Some z => if truthy_num z then params_append name (number_toString z) p else p
  | None => p
  end.

Definition append_if_tag {A} (tag : A -> string) (name : string)
  (v : option A) (p : URLSearchParams) : URLSearchParams :=
  append_if_str name (option_map tag v) p.

(** The parameters appended by [buildQueryString], in program order. *)
Definition query_params (filters : AppliedFilters) : URLSearchParams :=
  let params := [] in
  let params := append_if_str "state" (state filters) params in
  let params := append_if_str "district" (district filters) params in
  let params := append_if_num "year" (year filters) params in
  let params := append_if_num "month" (month filters) params in
  let params := append_if_tag MetricType_str "metricType" (metricType filters) params in
  let params := append_if_tag AgeGroup_str "ageGroup" (ageGroup filters) params in
  let params := append_if_tag IndexType_str "indexType" (indexType filters) params in
  params.

(** [const queryString = params.toString();
     return queryString ? `?${queryString}` : '';] *)
Definition buildQueryString (filters : AppliedFilters) : string :=
  let queryString := params_toString (query_params filters) in
  if truthy_str queryString then "?" ++ queryString else "".

Definition truthy_opt_str (v : option string) : bool :=
  match v with Some s => truthy_str s | None => false end.

Definition truthy_opt_num (v : option Z) : bool :=
  match v with Some z => truthy_num z | None => false end.

Definition truthy_opt_tag {A} (tag : A -> string) (v : option A) : bool :=
  truthy_opt_str (option_map tag v).

(** Whether the guard [if (filters.x)] of a field passes. *)
Definition fieldTruthy (f : AppliedFilters) (fld : Field) : bool :=
  match fld with
  | FState => truthy_opt_str (state f)
  | FDistrict => truthy_opt_str (district f)
  | FYear => truthy_opt_num (year f)
  | FMonth => truthy_opt_num (month f)
  | FMetricType => truthy_opt_tag MetricType_str (metricType f)
  | FAgeGroup => truthy_opt_tag AgeGroup_str (ageGroup f)
  | FIndexType => truthy_opt_tag IndexType_str (indexType f)
  end.

Definition is_defined {A} (v : option A) : bool :=
  match v with Some _ => true | None => false end.

(** Whether a field holds a value at all (is not [undefined]). *)
Definition fieldSet (f : AppliedFilters) (fld : Field) : bool :=
  match getField f fld with
  | VStr v => is_defined v
  | VNum v => is_defined v
  | VMetric v => is_defined v
  | VAge v => is_defined v
  | VIndex v => is_defined v
  end.

(** Wire name of each field. *)
Definition wireName (fld : Field) : string :=
  match fld with
  | FState => "state"
  | FDistrict => "district"
  | FYear => "year"
  | FMonth => "month"
  | FMetricType => "metricType"
  | FAgeGroup => "ageGroup"
  | FIndexType => "indexType"
  end.

Definition allFields : list Field :=
  [FState; FDistrict; FYear; FMonth; FMetricType; FAgeGroup; FIndexType].

(* ------------------------------------------------------------------ *)
(** ** Promises, exceptions and the hook state

    An [async] body is run in a small state-and-exception monad over the
    hook's state.  Each [await] records the state visible while the awaited
    promise is pending, so the result of a run is its outcome, its final
    state, and the states observed at its suspension points. *)

(** A thrown JavaScript value: an [Error] object with its [message], or any
    other value. *)
Inductive Thrown :=
| ErrorObj (message : string)
| NonError.

(** A settled promise. *)
Inductive Settled (A : Type) :=
| Resolved (a : A)
| Rejected (e : Thrown).
Arguments Resolved {A} a.
Arguments Rejected {A} e.

(** The state of the [useFilters] hook. *)
Record HookState := mkHookState {
  filterOptions : option FilterOptions;
  loadingOptions : bool;
  optionsError : option string;
  filters : AppliedFilters
}.

(** [useState] initial values: [null], [true], [null], [INITIAL_FILTERS]. *)
Definition initialHookState : HookState :=
  mkHookState None true None INITIAL_FILTERS.

Definition Async (A : Type) : Type :=
  HookState -> Settled A * HookState * list HookState.

Definition aret {A} (a : A) : Async A := fun s => (Resolved a, s, []).

Definition athrow {A} (e : Thrown) : Async A := fun s => (Rejected e, s, []).

Definition abind {A B} (m : Async A) (k : A -> Async B) : Async B :=
  fun s =>
    match m s with
    | (Resolved a, s1, tr1) =>
        match k a s1 with (r, s2, tr2) => (r, s2, (tr1 ++ tr2)%list) end
    | (Rejected e, s1, tr1) => (Rejected e, s1, tr1)
    end.

Notation "x <- m ;; k" := (abind m (fun x => k))
  (at level 61, m at next level, right associativity).
Notation "m ;;; k" := (abind m (fun _ => k))
  (at level 61, right associativity).

(** [await p] where [p] settles as given. *)
Definition await {A} (p : Settled A) : Async A :=
  fun s => (p, s, [s]).

(** [try { body } catch (err) { handler } finally { fin }] *)
Definition try_catch_finally {A} (body : Async A) (handler : Thrown -> Async A)
  (fin : Async unit) : Async A :=
  fun s =>
    let '(r1, s1, tr1) := body s in
    let '(r2, s2, tr2) :=
      match r1 with
      | Resolved a => (Resolved a, s1, [])
      | Rejected e => handler e s1
      end in
    let '(r3, s3, tr3) := fin s2 in
    match r3 with
    | Resolved _ => (r2, s3, (tr1 ++ tr2 ++ tr3)%list)
    | Rejected e => (Rejected e, s3, (tr1 ++ tr2 ++ tr3)%list)
    end.

(** The state setters of the hook. *)
Definition setFilterOptions (o : option FilterOptions) : Async unit :=
  fun s => (Resolved tt,
            mkHookState o (loadingOptions s) (optionsError s) (filters s), []).

Definition setLoadingOptions (b : bool) : Async unit :=
  fun s => (Resolved tt,
            mkHookState (filterOptions s) b (optionsError s) (filters s), []).

Definition setOptionsError (e : option string) : Async unit :=
  fun s => (Resolved tt,
            mkHookState (filterOptions s) (loadingOptions s) e (filters s), []).

(** [setFiltersState(update)] *)
Definition setFiltersState (upd : AppliedFilters -> AppliedFilters) : Async unit :=
  fun s => (Resolved tt,
            mkHookState (filterOptions s) (loadingOptions s) (optionsError s)
              (upd (filters s)), []).

(** [err instanceof Error ? err.message : 'Failed to load filter options'] *)
Definition errorMessage (err : Thrown) : string :=
  match err with
  | ErrorObj msg => msg
  | NonError => "Failed to load filter options"
  end.

(** The default fallback options of [fetchOptions]. *)
Definition fallbackOptions : FilterOptions :=
  mkFilterOptions [] [] [2024; 2025; 2026]%Z
    [mkMonthOption 1 "January"; mkMonthOption 2 "February";
     mkMonthOption 3 "March"; mkMonthOption 4 "April";
     mkMonthOption 5 "May"; mkMonthOption 6 "June";
     mkMonthOption 7 "July"; mkMonthOption 8 "August";
     mkMonthOption 9 "September"; mkMonthOption 10 "October";
     mkMonthOption 11 "November"; mkMonthOption 12 "December"]
    [Enrolment; Biometric; Demographic]
    [AgeAll; Age0_5; Age5_18; Age18_60; Age60plus]
    [Demand; Stress; Gap; CompositeRisk].

(** [fetchOptions] ([src/unnamed/part_001], lines 62-96); the argument is
    how the promise returned by [fetchFilterMetadata()] settles. *)
Definition fetchOptions (fetchFilterMetadata : Settled FilterOptions)
  : Async unit :=
  try_catch_finally
    (setLoadingOptions true;;;
     setOptionsError None;;;
     options <- await fetchFilterMetadata;;
     setFilterOptions (Some options))
    (fun err =>
       setOptionsError (Some (errorMessage err));;;
       setFilterOptions (Some fallbackOptions))
    (setLoadingOptions false).

(** [filteredDistricts] ([src/unnamed/part_001], lines 164-168). *)
Definition filteredDistricts (filterOptions : option FilterOptions)
  (filters : AppliedFilters) : list DistrictOption :=
  match filterOptions with
  | None => []
  | Some o =>
      match state filters with
      | Some st =>
          if truthy_str st
          then filter (fun d => String.eqb (stateCode d) st) (districts o)
          else districts o
      | None => districts o
      end
  end.

(* ------------------------------------------------------------------ *)
(** ** The search effect of [Header] ([src/components/Header.tsx], 46-74) *)

Module Header.

(** A JavaScript string as its sequence of UTF-16 code units; [.length]
    counts code units. *)
Definition js_string := list Z.

(** An ASCII literal as a JavaScript string. *)
Definition js (s : string) : js_string :=
  map (fun c => Z.of_nat (nat_of_ascii c)) (list_ascii_of_string s).

Record SearchResult := mkSearchResult {
  sr_id : js_string;
  sr_type : js_string;
  title : js_string;
  subtitle : option js_string;
  sr_status : option js_string
}.

Record SearchResponse := mkSearchResponse {
  query : js_string;
  results : list SearchResult;
  totalCount : Z
}.

(** The observable effects of the search effect, in program order. *)
Inductive HeaderEvent :=
| SetSearchResults (rs : list SearchResult)
| SetShowSearchResults (b : bool)
| SetIsSearching (b : bool)
| CallSearch (q : js_string)
| WarnSearchFailed.

Fixpoint starts_with (pre s : js_string) : bool :=
  match pre, s with
  | [], _ => true
  | _ :: _, [] => false
  | c :: pre', d :: s' => Z.eqb c d && starts_with pre' s'
  end.

(** [s.includes(needle)] *)
Fixpoint includes (s needle : js_string) : bool :=
  starts_with needle s ||
  match s with
  | [] => false
  | _ :: s' => includes s' needle
  end.

Section SearchEffect.

(** [String.prototype.toLowerCase], with its Unicode case tables. *)
Variable toLowerCase : js_string -> js_string.

(** The demo results used when the search request fails. *)
Definition mockResults : list SearchResult :=
  [mkSearchResult (js "1") (js "state") (js "Uttar Pradesh")
     (Some (js "Critical Status")) (Some (js "CRITICAL"));
   mkSearchResult (js "2") (js "district") (js "Lucknow")
     (Some (js "Uttar Pradesh")) (Some (js "WATCH"));
   mkSearchResult (js "3") (js "alert") (js "Anomaly Detected")
     (Some (js "Bihar - 2 hours ago")) None].

(** One run of the effect body for the current [debouncedQuery]; the
    second argument is how the promise returned by [search] settles. *)
Definition searchEffect (debouncedQuery : js_string)
  (searchOutcome : Settled SearchResponse) : list HeaderEvent :=
  if Nat.ltb (length debouncedQuery) 2 then
    [SetSearchResults []; SetShowSearchResults false]
  else
    [SetIsSearching true; CallSearch debouncedQuery] ++
    match searchOutcome with
    | Resolved response =>
        [SetSearchResults (results response); SetShowSearchResults true]
    | Rejected _ =>
        [WarnSearchFailed;
         SetSearchResults
           (filter (fun r => includes (toLowerCase (title r))
                                      (toLowerCase debouncedQuery))
              mockResults);
         SetShowSearchResults true]
    end ++ [SetIsSearching false].

(** The values of [debouncedQuery] for which the effect runs, given its
    value at each render: the first render, then every render whose value
    differs from the previous one (dependency list [[debouncedQuery]]). *)
Fixpoint effectRunsFrom (prev : js_string) (renders : list js_string)
  : list js_string :=
  match renders with
  | [] => []
  | q :: rest =>
      if list_eq_dec Z.eq_dec q prev then effectRunsFrom prev rest
      else q :: effectRunsFrom q rest
  end.

Definition effectRuns (renders : list js_string) : list js_string :=
  match renders with
  | [] => []
  | q :: rest => q :: effectRunsFrom q rest
  end.

(** All effects of the search feature over a sequence of renders, with
    [outcome q] the settlement of [search(q)]. *)
Definition headerTrace (renders : list js_string)
  (outcome : js_string -> Settled SearchResponse) : list HeaderEvent :=
  flat_map (fun q => searchEffect q (outcome q)) (effectRuns renders).

End SearchEffect.

(** [Notification] of [src/contexts/AuthContext.tsx] (lines 551-560). *)
Inductive NotificationType := Emergency | Warning | Info | Success.

Record Notification := mkNotification {
  n_id : js_string;
  n_type : NotificationType;
  n_title : js_string;
  message : js_string;
  region : option js_string;
  timestamp : js_string;
  isRead : bool;
  link : option js_string
}.

(** [n => ({ ...n, isRead: true })] *)
Definition markRead (n : Notification) : Notification :=
  {| n_id := n_id n; n_type := n_type n; n_title := n_title n;
     message := message n; region := region n; timestamp := timestamp n;
     isRead := true; link := link n |}.

(** [handleMarkAllRead] (lines 130-141): the notifications and the unread
    count after the request [markAllNotificationsRead()] settles with
    [outcome]. *)
Definition handleMarkAllRead (outcome : Settled unit)
  (notifications : list Notification) (unreadCount : Z) : list Notification * Z :=
  match outcome with
  | Resolved _ => (map markRead notifications, 0%Z)
  | Rejected _ => (map markRead notifications, 0%Z)
  end.

(** The number of notifications not yet read. *)
Definition unreadOf (notifications : list Notification) : Z :=
  Z.of_nat (length (filter (fun n => negb (isRead n)) notifications)).

(** [r.type === type] *)
Definition js_eqb (a b : js_string) : bool :=
  if list_eq_dec Z.eq_dec a b then true else false.

(** The search results shown by the dropdown (lines 222-264), in display
    order: nothing unless [showSearchResults && searchResults.length > 0],
    then the group of each of [state], [district] and [alert], an empty
    group rendering nothing. *)
Definition resultTypes : list js_string := [js "state"; js "district"; js "alert"].

Definition renderedResults (showSearchResults : bool) (searchResults : list SearchResult)
  : list SearchResult :=
  if showSearchResults && Nat.ltb 0 (length searchResults) then
    flat_map (fun type =>
                let typeResults := filter (fun r => js_eqb (sr_type r) type) searchResults in
                if Nat.eqb (length typeResults) 0 then [] else typeResults)
             resultTypes
  else [].

(** [s.split(sep)] on code units. *)
Fixpoint js_split (sep : Z) (s : js_string) : list js_string :=
  match s with
  | [] => [[]]
  | c :: rest =>
      if Z.eqb c sep then [] :: js_split sep rest
      else match js_split sep rest with
           | [] => [[c]]
           | x :: xs => (c :: x) :: xs
           end
  end.

Section Initials.

(** [String.prototype.toUpperCase], with its Unicode case tables (it may
    change the length, as for U+00DF). *)
Variable toUpperCase : js_string -> js_string.

(** [userInitials] (lines 170-172):
    [user?.name ? user.name.split(' ').map(n => n[0]).join('')
                   .toUpperCase().slice(0, 2) : 'AA'];
    [n[0]] of an empty piece is [undefined], which [join] writes as the
    empty string. *)
Definition userInitials (userName : option js_string) : js_string :=
  match userName with
  | Some name =>
      if Nat.eqb (length name) 0 then js "AA"
      else firstn 2 (toUpperCase
             (concat (map (fun n => match n with [] => [] | c :: _ => [c] end)
                          (js_split 32 name))))
  | None => js "AA"
  end.

End Initials.

End Header.

(* ------------------------------------------------------------------ *)
(** ** The debounced input controller *)

Module Debounce.

Section Debounce.

Variable V : Type.
Variable V_eq_dec : forall a b : V, {a = b} + {a <> b}.

(** The delay, in milliseconds. *)
Variable D : Z.

(** Modelled from the spec: the hook [useDebounce] of
    [src/hooks/useDebounce], which is not among the sources.  Its state is
    the pair of values and the deadline of the pending timer (section 3,
    DebounceState). *)
Record DebounceState := mkDebounceState {
  rawValue : V;
  stableValue : V;
  pendingTimer : option Z
}.

Definition initialDebounce (v : V) : DebounceState :=
  mkDebounceState v v None.

(** Modelled from the spec: time passes up to [now]; a pending timer whose
    deadline has been reached fires and publishes [rawValue]. *)
Definition advance (now : Z) (s : DebounceState) : DebounceState :=
  match pendingTimer s with
  | Some deadline =>
      if Z.leb deadline now
      then mkDebounceState (rawValue s) (rawValue s) None
      else s
  | None => s
  end.

(** Modelled from the spec: the input takes value [v] at time [t]; when it
    changes, the pending timer is cancelled and restarted with delay [D]. *)
Definition inputAt (t : Z) (v : V) (s : DebounceState) : DebounceState :=
  let s := advance t s in
  if V_eq_dec v (rawValue s) then s
  else mkDebounceState v (stableValue s) (Some (t + D)%Z).

Fixpoint feed (s : DebounceState) (evs : list (Z * V)) : DebounceState :=
  match evs with
  | [] => s
  | (t, v) :: rest => feed (inputAt t v s) rest
  end.

(** The controller's output at time [T], for input changes [evs] in
    chronological order, starting from value [init]. *)
Definition outputAt (init : V) (evs : list (Z * V)) (T : Z) : V :=
  stableValue
    (advance T (feed (initialDebounce init)
                  (filter (fun e => Z.leb (fst e) T) evs))).

(** Events in non-decreasing order of time, none before [t0]. *)
Fixpoint chronoFrom (t0 : Z) (evs : list (Z * V)) : Prop :=
  match evs with
  | [] => True
  | (t, _) :: rest => (t0 <= t)%Z /\ chronoFrom t rest
  end.

Definition chronological (evs : list (Z * V)) : Prop :=
  match evs with
  | [] => True
  | (t, _) :: _ => chronoFrom t evs
  end.

(** A burst following the change [prev]: each next change comes before the
    delay after the previous one has elapsed, and really changes the
    value. *)
Fixpoint burstAfter (prev : Z * V) (evs : list (Z * V)) : Prop :=
  match evs with
  | [] => True
  | (t, v) :: rest =>
      (fst prev <= t)%Z /\ (t < fst prev + D)%Z /\ v <> snd prev
      /\ burstAfter (t, v) rest
  end.

End Debounce.

End Debounce.

(* ------------------------------------------------------------------ *)
(** ** Decoding side of the URL encodings

    The receiving side of the strings built above: the URL standard's
    percent-decoding and its [application/x-www-form-urlencoded] parser
    (what [new URLSearchParams(query)] and the backend apply). *)

(** Value of a hexadecimal digit (either case). *)
Definition hex_val (c : ascii) : option nat :=
  let n := nat_of_ascii c in
  if Nat.leb 48 n && Nat.leb n 57 then Some (n - 48)
  else if Nat.leb 65 n && Nat.leb n 70 then Some (n - 55)
  else if Nat.leb 97 n && Nat.leb n 102 then Some (n - 87)
  else None.

(** Percent-decoding: [%XY] with two hexadecimal digits becomes the byte
    [XY]; every other byte is kept. *)
Fixpoint percent_decode (s : string) : string :=
  match s with
  | EmptyString => EmptyString
  | String c rest =>
      if Ascii.eqb c "%" then
        match rest with
        | String h1 (String h2 rest') =>
            match hex_val h1, hex_val h2 with
            | Some a, Some b =>
                String (ascii_of_nat (a * 16 + b)) (percent_decode rest')
            | _, _ => String c (percent_decode rest)
            end
        | _ => String c (percent_decode rest)
        end
      else String c (percent_decode rest)
  end.

Fixpoint plus_to_space (s : string) : string :=
  match s with
  | EmptyString => EmptyString
  | String c rest =>
      String (if Ascii.eqb c "+" then " " else c) (plus_to_space rest)
  end.

(** Decoding of one name or value of a form-encoded string. *)
Definition form_decode (s : string) : string :=
  percent_decode (plus_to_space s).

(** [s.split(sep)] *)
Fixpoint split_on (sep : ascii) (s : string) : list string :=
  match s with
  | EmptyString => [EmptyString]
  | String c rest =>
      if Ascii.eqb c sep then EmptyString :: split_on sep rest
      else match split_on sep rest with
           | [] => [String c EmptyString]
           | x :: xs => String c x :: xs
           end
  end.

(** Split at the first [sep]: the part before and the part after; the
    whole string and the empty string when there is none. *)
Fixpoint split_at_first (sep : ascii) (s : string) : string * string :=
  match s with
  | EmptyString => (EmptyString, EmptyString)
  | String c rest =>
      if Ascii.eqb c sep then (EmptyString, rest)
      else let '(n, v) := split_at_first sep rest in (String c n, v)
  end.

(** The [application/x-www-form-urlencoded] parser: split on [&], skip
    empty sequences, split each at its first [=], decode both parts. *)
Definition parse_urlencoded (s : string) : URLSearchParams :=
  map (fun sq => let '(n, v) := split_at_first "=" sq in
                 (form_decode n, form_decode v))
      (filter truthy_str (split_on "&" s)).

(** [encodeURIComponent] on the UTF-8 bytes of its argument: ASCII letters,
    digits and [-_.!~*'()] are kept, every other byte is written [%XX]. *)
Definition uri_component_byte (c : ascii) : string :=
  let n := nat_of_ascii c in
  if (Nat.leb 48 n && Nat.leb n 57)
     || (Nat.leb 65 n && Nat.leb n 90)
     || (Nat.leb 97 n && Nat.leb n 122)
     || Nat.eqb n 45 || Nat.eqb n 95 || Nat.eqb n 46 || Nat.eqb n 33
     || Nat.eqb n 126 || Nat.eqb n 42 || Nat.eqb n 39 || Nat.eqb n 40
     || Nat.eqb n 41
  then String c EmptyString
  else String "%" (String (hex_digit (n / 16))
                     (String (hex_digit (n mod 16)) EmptyString)).

Fixpoint encodeURIComponent (s : string) : string :=
  match s with
  | EmptyString => EmptyString
  | String c rest => uri_component_byte c ++ encodeURIComponent rest
  end.

(** Endpoints built from user text in [src/services/aadhaarApi.ts]:
    [search] (lines 247-250) and [fetchDistrictsSummary] (lines
    118-121). *)
Definition search_endpoint (query : string) : string :=
  "/search?q=" ++ encodeURIComponent query.

Definition districtsSummary_endpoint (stateName : string) : string :=
  "/dashboard/states/" ++ encodeURIComponent stateName ++ "/districts-summary".

(** The query component of a URL or of a [buildQueryString] result: what
    follows its first [?]. *)
Definition query_component (url : string) : string :=
  snd (split_at_first "?" url).

(** Whether byte [c] occurs in [s]. *)
Fixpoint has_char (c : ascii) (s : string) : bool :=
  match s with
  | EmptyString => false
  | String d rest => Ascii.eqb c d || has_char c rest
  end.

(* ------------------------------------------------------------------ *)
(** ** Authentication store and fetch wrappers
    ([src/services/authApi.ts], [src/services/aadhaarApi.ts] lines 23-90,
    [src/contexts/AuthContext.tsx] lines 43-134)

    [sessionStorage] is an association list of string keys and values;
    the module-level [accessToken] variable of [authApi.ts] and the
    storage form the [AuthStore].  JSON values are abstract: a
    [JsonModel] gives [JSON.stringify] and [JSON.parse] (the latter
    [None] when it throws) and the property reads the code performs on
    parsed values.  [fetch] is an input: the settled outcome of the
    request for a given URL and init object. *)

Module Auth.

Definition SessionStorage := list (string * string).

(** [sessionStorage.getItem(key)] *)
Fixpoint getItem (key : string) (s : SessionStorage) : option string :=
  match s with
  | [] => None
  | (k, v) :: rest => if String.eqb k key then Some v else getItem key rest
  end.

(** [sessionStorage.removeItem(key)] *)
Definition removeItem (key : string) (s : SessionStorage) : SessionStorage :=
  filter (fun kv => negb (String.eqb (fst kv) key)) s.

(** [sessionStorage.setItem(key, value)] *)
Definition setItem (key value : string) (s : SessionStorage) : SessionStorage :=
  (removeItem key s ++ [(key, value)])%list.

Record AuthStore := mkAuthStore {
  accessToken : option string;      (* let accessToken: string | null *)
  sessionStorage : SessionStorage
}.

Class JsonModel (Json : Type) := {
  stringify : Json -> string;          (* JSON.stringify *)
  parse : string -> option Json;       (* JSON.parse, None when it throws *)
  json_truthy : Json -> bool;          (* truthiness of a parsed value *)
  message_of : Json -> option string;  (* v.message, when a string *)
  accessToken_of : Json -> option string;  (* v.accessToken *)
  user_of : Json -> option Json        (* v.user *)
}.

(** [getAuthToken] (lines 27-31) *)
Definition getAuthToken (st : AuthStore) : option string :=
  if truthy_opt_str (accessToken st) then accessToken st
  else getItem "auth_token" (sessionStorage st).

(** [setAuthToken] (lines 36-43) *)
Definition setAuthToken (token : option string) (st : AuthStore) : AuthStore :=
  {| accessToken := token;
     sessionStorage :=
       match token with
       | Some t => if truthy_str t then setItem "auth_token" t (sessionStorage st)
                   else removeItem "auth_token" (sessionStorage st)
       | None => removeItem "auth_token" (sessionStorage st)
       end |}.

(** [clearAuthData] (lines 48-52) *)
Definition clearAuthData (st : AuthStore) : AuthStore :=
  {| accessToken := None;
     sessionStorage :=
       removeItem "auth_user" (removeItem "auth_token" (sessionStorage st)) |}.

Section Store.
Context {Json : Type} `{JsonModel Json}.

(** [setStoredUser] (lines 57-63) *)
Definition setStoredUser (user : option Json) (st : AuthStore) : AuthStore :=
  {| accessToken := accessToken st;
     sessionStorage :=
       match user with
       | Some u => if json_truthy u
                   then setItem "auth_user" (stringify u) (sessionStorage st)
                   else removeItem "auth_user" (sessionStorage st)
       | None => removeItem "auth_user" (sessionStorage st)
       end |}.

(** [getStoredUser] (lines 68-78) *)
Definition getStoredUser (st : AuthStore) : option Json :=
  match getItem "auth_user" (sessionStorage st) with
  | Some stored => if truthy_str stored then parse stored else None
  | None => None
  end.

(** [initializeAuth] (lines 191-195) *)
Definition initializeAuth (st : AuthStore) : option string * option Json :=
  (getAuthToken st, getStoredUser st).

End Store.

(** [isTokenExpired] (lines 183-186), times in milliseconds and seconds. *)
Definition isTokenExpired (now expiresAt : Z) : bool :=
  Z.leb (expiresAt * 1000 - 30000) now.

(** A [RequestInit]: a missing property is [None]. *)
Record RequestInit := mkRequestInit {
  ri_method : option string;
  ri_body : option string;
  ri_headers : option (list (string * string))
}.

(** [o[k] = v] on an object literal: an existing key keeps its place. *)
Fixpoint obj_set (k v : string) (o : list (string * string))
  : list (string * string) :=
  match o with
  | [] => [(k, v)]
  | (k', v') :: rest =>
      if String.eqb k k' then (k, v) :: rest else (k', v') :: obj_set k v rest
  end.

(** [{ ...o, ...kvs }] *)
Definition obj_spread (o kvs : list (string * string)) : list (string * string) :=
  fold_left (fun acc kv => obj_set (fst kv) (snd kv) acc) kvs o.

(** [{ 'Content-Type': 'application/json',
       ...(token ? { Authorization: `Bearer ${token}` } : {}),
       ...options?.headers }] *)
Definition request_headers (token : option string) (options : option RequestInit)
  : list (string * string) :=
  obj_spread
    (obj_spread [("Content-Type", "application/json")]
       (match token with
        | Some t => if truthy_str t then [("Authorization", "Bearer " ++ t)] else []
        | None => []
        end))
    (match options with
     | Some o => match ri_headers o with Some h => h | None => [] end
     | None => []
     end).

(** [{ headers: {...}, ...options }]: the properties of [options]
    override. *)
Definition requestInit (token : option string) (options : option RequestInit)
  : RequestInit :=
  match options with
  | None => {| ri_method := None; ri_body := None;
               ri_headers := Some (request_headers token options) |}
  | Some o => {| ri_method := ri_method o; ri_body := ri_body o;
                 ri_headers := match ri_headers o with
                               | Some h => Some h
                               | None => Some (request_headers token options)
                               end |}
  end.

Section Fetch.
Context {Json : Type} `{JsonModel Json}.

Record Response := mkResponse {
  status : Z;
  text : Settled string;   (* response.text() *)
  json : Settled Json      (* response.json() *)
}.

(** [response.ok] *)
Definition response_ok (r : Response) : bool :=
  Z.leb 200 (status r) && Z.leb (status r) 299.

Definition Fetch := string -> RequestInit -> Settled Response.

Variable API_BASE_URL : string.

(** The [window] and the auth store as [aadhaarApi.ts] sees them. *)
Record World := mkWorld {
  auth : AuthStore;
  dispatched : list string   (* events dispatched on window, in order *)
}.

Definition AUTH_ERROR_EVENT : string := "auth:unauthorized".

(** [apiFetch] ([src/services/aadhaarApi.ts] lines 67-90) *)
Definition apiFetch (fetch : Fetch) (endpoint : string)
  (options : option RequestInit) (w : World) : World * Settled Json :=
  let token := getAuthToken (auth w) in
  match fetch (API_BASE_URL ++ endpoint) (requestInit token options) with
  | Rejected e => (w, Rejected e)
  | Resolved response =>
      if Z.eqb (status response) 401 then
        ({| auth := clearAuthData (auth w);
            dispatched := (dispatched w ++ [AUTH_ERROR_EVENT])%list |},
         Rejected (ErrorObj "Session expired. Please login again."))
      else if negb (response_ok response) then
        (w, match text response with
            | Resolved errorText =>
                Rejected (ErrorObj ("API Error (" ++ number_toString (status response)
                                    ++ "): " ++ errorText))
            | Rejected e => Rejected e
            end)
      else (w, json response)
  end.

(** [fetchHeatmapData] and [fetchVisualsData] (lines 153-169) *)
Definition fetchHeatmapData (fetch : Fetch) (filters : AppliedFilters) (w : World)
  : World * Settled Json :=
  apiFetch fetch ("/dashboard/heatmap" ++ buildQueryString filters) None w.

Definition fetchVisualsData (fetch : Fetch) (filters : AppliedFilters) (w : World)
  : World * Settled Json :=
  apiFetch fetch ("/dashboard/visuals" ++ buildQueryString filters) None w.

(** [authFetch] ([src/services/authApi.ts] lines 83-104) *)
Definition authFetch (fetch : Fetch) (endpoint : string)
  (options : option RequestInit) (st : AuthStore) : Settled Json :=
  let token := getAuthToken st in
  match fetch (API_BASE_URL ++ endpoint) (requestInit token options) with
  | Rejected e => Rejected e
  | Resolved response =>
      if negb (response_ok response) then
        let fallback := "Auth Error (" ++ number_toString (status response) ++ ")" in
        Rejected (ErrorObj
          (match json response with
           | Resolved errorData =>
               match message_of errorData with
               | Some m => if truthy_str m then m else fallback
               | None => fallback
               end
           | Rejected _ => fallback
           end))
      else json response
  end.

Definition POST (body : option string) : option RequestInit :=
  Some {| ri_method := Some "POST"; ri_body := body; ri_headers := None |}.

(** [login] (lines 110-121); the body is [JSON.stringify(credentials)]. *)
Definition login (fetch : Fetch) (credentialsBody : string) (st : AuthStore)
  : AuthStore * Settled Json :=
  match authFetch fetch "/auth/login" (POST (Some credentialsBody)) st with
  | Resolved response =>
      (setStoredUser (user_of response) (setAuthToken (accessToken_of response) st),
       Resolved response)
  | Rejected e => (st, Rejected e)
  end.

(** [logout] (lines 144-153) *)
Definition logout (fetch : Fetch) (st : AuthStore) : AuthStore * Settled unit :=
  (clearAuthData st,
   match authFetch fetch "/auth/logout" (POST None) st with
   | Resolved _ => Resolved tt
   | Rejected e => Rejected e
   end).

(** [getCurrentUser] (lines 159-163) *)
Definition getCurrentUser (fetch : Fetch) (st : AuthStore) : AuthStore * Settled Json :=
  match authFetch fetch "/auth/me" None st with
  | Resolved user => (setStoredUser (Some user) st, Resolved user)
  | Rejected e => (st, Rejected e)
  end.

End Fetch.

(** The demo user of [AuthContext]'s [login] fallback. *)
Inductive Role := Admin | Viewer | Analyst.

Record User := mkUser {
  id : string;
  email : string;
  name : string;
  role : Role;
  avatar : option string;
  department : option string;
  lastLogin : option string
}.

(** [\w]: ASCII letters, digits and [_]. *)
Definition is_word (c : ascii) : bool :=
  let n := nat_of_ascii c in
  (Nat.leb 48 n && Nat.leb n 57) || (Nat.leb 65 n && Nat.leb n 90)
  || (Nat.leb 97 n && Nat.leb n 122) || Nat.eqb n 95.

(** [l.toUpperCase()] on one ASCII character. *)
Definition ascii_upper (c : ascii) : ascii :=
  let n := nat_of_ascii c in
  if Nat.leb 97 n && Nat.leb n 122 then ascii_of_nat (n - 32) else c.

(** [.replace(/[._]/g, ' ')] *)
Fixpoint replace_dot_underscore (s : string) : string :=
  match s with
  | EmptyString => EmptyString
  | String c rest =>
      String (if Ascii.eqb c "." || Ascii.eqb c "_" then " " else c)
             (replace_dot_underscore rest)
  end.

(** [.replace(/\b\w/g, l => l.toUpperCase())]: a word character not
    preceded by one ([prevWord]) starts a word. *)
Fixpoint capitalize_words (prevWord : bool) (s : string) : string :=
  match s with
  | EmptyString => EmptyString
  | String c rest =>
      String (if negb prevWord && is_word c then ascii_upper c else c)
             (capitalize_words (is_word c) rest)
  end.

(** [credentials.email.split('@')[0].replace(...).replace(...)] *)
Definition demoName (email : string) : string :=
  capitalize_words false (replace_dot_underscore (fst (split_at_first "@" email))).

Definition demoUser (credentialsEmail : string) : User :=
  {| id := "demo-user-1"; email := credentialsEmail; name := demoName credentialsEmail;
     role := Admin; avatar := None; department := Some "Central Analytics";
     lastLogin := None |}.

(** [AuthState] of [AuthContext] *)
Record AuthState (Json : Type) := mkAuthState {
  ctx_user : option Json;
  isAuthenticated : bool;
  isLoading : bool;
  error : option string
}.
Arguments mkAuthState {Json} ctx_user isAuthenticated isLoading error.
Arguments ctx_user {Json} a.
Arguments isAuthenticated {Json} a.
Arguments isLoading {Json} a.
Arguments error {Json} a.

Definition signedIn {Json} (u : option Json) : AuthState Json :=
  mkAuthState u true false None.

Definition signedOut {Json} : AuthState Json :=
  mkAuthState None false false None.

Section Context.
Context {Json : Type} `{JsonModel Json}.
Variable API_BASE_URL : string.
(** The demo user object literal as a JSON value. *)
Variable user_json : User -> Json.

(** [AuthProvider]'s [login] ([AuthContext.tsx] lines 101-134): on any
    failure of the API login it signs in a demo user; [now] is
    [Date.now()]. *)
Definition ctx_login (fetch : Fetch) (now : Z) (credentialsEmail credentialsBody : string)
  (st : AuthStore) : AuthStore * AuthState Json :=
  match login API_BASE_URL fetch credentialsBody st with
  | (st', Resolved response) => (st', signedIn (user_of response))
  | (st', Rejected _) =>
      let u := user_json (demoUser credentialsEmail) in
      (setStoredUser (Some u)
         (setAuthToken (Some ("demo-token-" ++ number_toString now)) st'),
       signedIn (Some u))
  end.

(** [initAuth] of [AuthProvider] ([AuthContext.tsx] lines 53-98). *)
Definition initAuth (fetch : Fetch) (st : AuthStore) : AuthStore * AuthState Json :=
  match initializeAuth st with
  | (Some token, Some user) =>
      if truthy_str token && json_truthy user then
        if String.prefix "demo-token-" token then (st, signedIn (Some user))
        else match getCurrentUser API_BASE_URL fetch st with
             | (st', Resolved currentUser) => (st', signedIn (Some currentUser))
             | (st', Rejected _) => (clearAuthData st', signedOut)
             end
      else (st, signedOut)
  | _ => (st, signedOut)
  end.

End Context.

(** A JSON model where every value is a string holding its own
    serialisation, and [fetch] stubs for concrete runs. *)
Definition string_json : JsonModel string :=
  {| stringify := fun s => s; parse := fun s => Some s; json_truthy := truthy_str;
     message_of := fun s => Some s; accessToken_of := fun s => Some s;
     user_of := fun s => Some s |}.

Definition fetch_always (r : Settled (@Response string)) : @Fetch string :=
  fun _ _ => r.

End Auth.

(* ------------------------------------------------------------------ *)
(** ** The filter bar ([src/unnamed/part_004], lines 56-246)

    The pages wire its callbacks to the setters of [useFilters]
    ([onStateChange={setStateFilter}], ..., [onClearFilters={clearFilters}]). *)

(** [Object.values(filters).some(v => v !== undefined)] (line 80) *)
Definition hasActiveFilters (filters : AppliedFilters) : bool :=
  is_defined (state filters) || is_defined (district filters)
  || is_defined (year filters) || is_defined (month filters)
  || is_defined (metricType filters) || is_defined (ageGroup filters)
  || is_defined (indexType filters).

(** A choice in one of the selects, or a click on "Clear all".  State and
    district carry the [value] of the chosen option ([""] for the "All"
    option); the other selects carry the chosen option, [None] for the
    "All" option whose value is [""]: for a year or month option the
    value is [String(n)], which [parseInt] reads back as [n]. *)
Inductive FilterBarEvent :=
| ChangeState (value : string)
| ChangeDistrict (value : string)
| ChangeYear (option_value : option Z)
| ChangeMonth (option_value : option Z)
| ChangeMetricType (option_value : option MetricType)
| ChangeAgeGroup (option_value : option AgeGroup)
| ChangeIndexType (option_value : option IndexType)
| ClickClearAll.

(** [e.target.value || undefined] *)
Definition value_or_undefined (value : string) : option string :=
  if truthy_str value then Some value else None.

(** One event on the bar; the "Clear all" button is only rendered while
    [hasActiveFilters] holds (lines 105-113). *)
Definition filterBarStep (filters : AppliedFilters) (ev : FilterBarEvent)
  : AppliedFilters :=
  match ev with
  | ChangeState v => setStateFilter (value_or_undefined v) filters
  | ChangeDistrict v => setDistrictFilter (value_or_undefined v) filters
  | ChangeYear y => setYearFilter y filters
  | ChangeMonth m => setMonthFilter m filters
  | ChangeMetricType t => setMetricTypeFilter t filters
  | ChangeAgeGroup g => setAgeGroupFilter g filters
  | ChangeIndexType t => setIndexTypeFilter t filters
  | ClickClearAll => if hasActiveFilters filters then clearFilters filters else filters
  end.

Definition runFilterBar (filters : AppliedFilters) (evs : list FilterBarEvent)
  : AppliedFilters :=
  fold_left filterBarStep evs filters.

(** [filteredDistricts || filterOptions?.districts || []] (line 81): an
    array is truthy even when empty. *)
Definition districtChoices (filteredDistrictsProp : option (list DistrictOption))
  (filterOptions : option FilterOptions) : list DistrictOption :=
  match filteredDistrictsProp with
  | Some ds => ds
  | None => match filterOptions with Some o => districts o | None => [] end
  end.

(** Neither the state nor the district filter holds the empty string. *)
Definition no_empty_codes (f : AppliedFilters) : Prop :=
  state f <> Some "" /\ district f <> Some "".

(** The URL delimiters, and the space. *)
Definition uri_reserved : list ascii := ["&"; "="; "#"; "?"; "/"; "+"; " "]%char.

(** One serialised [name=value] pair of [URLSearchParams.toString]. *)
Definition encode_pair (kv : string * string) : string :=
  form_encode (fst kv) ++ "=" ++ form_encode (snd kv).

(* ================================================================== *)
(** * Properties *)

(* ------------------------------------------------------------------ *)
(** ** Setters *)

Lemma opt_str_eqb_true (a b : option string) :
  opt_str_eqb a b = true <-> a = b.
Proof.
  destruct a as [x|], b as [y|]; simpl; split; intro H; try discriminate;
    try reflexivity.
  - apply String.eqb_eq in H; subst; reflexivity.
  - apply String.eqb_eq; congruence.
Qed.

Lemma district_setStateFilter (st : option string) (prev : AppliedFilters) :
  district (setStateFilter st prev) =
  if opt_str_eqb st (state prev) then district prev else None.
Proof.
  unfold setStateFilter; destruct (opt_str_eqb st (state prev)); reflexivity.
Qed.

Lemma finalFilters_app (f0 : AppliedFilters) (xs ys : list FilterAction) :
  finalFilters f0 (xs ++ ys) = finalFilters (finalFilters f0 xs) ys.
Proof.
  revert f0; induction xs as [|a xs IH]; intro f0; simpl; auto.
Qed.

(** C1: after any sequence of calls, a call [setStateFilter X] with [X]
    different from the current state (set or unset) leaves the district
    unset, whatever it was before. *)
Theorem setStateFilter_clears_district :
  forall (f0 : AppliedFilters) (acts : list FilterAction) (X : option string),
    X <> state (finalFilters f0 acts) ->
    district (finalFilters f0 (acts ++ [ActState X])) = None.
Proof.
  intros f0 acts X Hne.
  rewrite finalFilters_app; simpl.
  rewrite district_setStateFilter.
  destruct (opt_str_eqb X (state (finalFilters f0 acts))) eqn:E; [|reflexivity].
  apply opt_str_eqb_true in E; contradiction.
Qed.

(** Scenario A: [setRegion "UP"], [setSubRegion "UP-D1"], [setRegion "BR"]. *)
Example scenario_A :
  finalFilters INITIAL_FILTERS
    [ActState (Some "UP"); ActDistrict (Some "UP-D1"); ActState (Some "BR")]
  = mkAppliedFilters (Some "BR") None None None None None None.
Proof. reflexivity. Qed.

Lemma setStateFilter_clears_district_witness :
  Some "BR" <> state (finalFilters INITIAL_FILTERS
                        [ActState (Some "UP"); ActDistrict (Some "UP-D1")]) /\
  district (finalFilters INITIAL_FILTERS
              ([ActState (Some "UP"); ActDistrict (Some "UP-D1")]
               ++ [ActState (Some "BR")])) = None.
Proof.
  split.
  - simpl; discriminate.
  - apply setStateFilter_clears_district; simpl; discriminate.
Defined.

(** C10: [setStateFilter X] with [X] equal to the current state (also
    [undefined] when the state is unset) leaves the district, and indeed
    the whole filter, unchanged. *)
Theorem setStateFilter_same_keeps_district :
  forall (f : AppliedFilters) (X : option string),
    X = state f ->
    district (setStateFilter X f) = district f /\ setStateFilter X f = f.
Proof.
  intros f X ->.
  assert (E : opt_str_eqb (state f) (state f) = true)
    by (apply opt_str_eqb_true; reflexivity).
  unfold setStateFilter; rewrite E; simpl.
  destruct f; split; reflexivity.
Qed.

Lemma setStateFilter_same_keeps_district_witness :
  let f := mkAppliedFilters (Some "UP") (Some "UP-D1") (Some 2025%Z)
             None None None None in
  Some "UP" = state f /\
  (district (setStateFilter (Some "UP") f) = district f /\
   setStateFilter (Some "UP") f = f).
Proof.
  simpl; split; [reflexivity|].
  apply (setStateFilter_same_keeps_district
           (mkAppliedFilters (Some "UP") (Some "UP-D1") (Some 2025%Z)
              None None None None) (Some "UP")).
  reflexivity.
Defined.

(** Frame property of a single-field update. *)
Definition updatesOnly (upd : AppliedFilters -> AppliedFilters) (own : Field)
  (newVal : FieldVal) (f : AppliedFilters) : Prop :=
  getField (upd f) own = newVal /\
  (forall fld, fld <> own -> getField (upd f) fld = getField f fld).

(** C7: each of [setDistrictFilter], [setYearFilter], [setMonthFilter],
    [setMetricTypeFilter], [setAgeGroupFilter] and [setIndexTypeFilter]
    sets its own field to the argument and leaves every other field as it
    was. *)
Theorem field_setters_update_only_their_field :
  forall f : AppliedFilters,
    (forall d, updatesOnly (setDistrictFilter d) FDistrict (VStr d) f) /\
    (forall y, updatesOnly (setYearFilter y) FYear (VNum y) f) /\
    (forall m, updatesOnly (setMonthFilter m) FMonth (VNum m) f) /\
    (forall m, updatesOnly (setMetricTypeFilter m) FMetricType (VMetric m) f) /\
    (forall a, updatesOnly (setAgeGroupFilter a) FAgeGroup (VAge a) f) /\
    (forall i, updatesOnly (setIndexTypeFilter i) FIndexType (VIndex i) f).
Proof.
  intro f.
  repeat split;
    intros fld Hfld; destruct fld; solve [reflexivity | congruence].
Qed.

Lemma field_setters_update_only_their_field_witness :
  updatesOnly (setYearFilter (Some 2025%Z)) FYear (VNum (Some 2025%Z))
    (mkAppliedFilters (Some "UP") (Some "UP-D1") None None None None None).
Proof.
  apply (proj1 (proj2 (field_setters_update_only_their_field
    (mkAppliedFilters (Some "UP") (Some "UP-D1") None None None None None)))).
Defined.

(* ------------------------------------------------------------------ *)
(** ** [buildQueryString] *)

Lemma map_fst_append_if_str (name : string) (v : option string)
  (p : URLSearchParams) :
  map fst (append_if_str name v p) =
  (map fst p ++ (if truthy_opt_str v then [name] else []))%list.
Proof.
  destruct v as [s|]; simpl; [destruct (truthy_str s)|];
    unfold params_append; rewrite ?map_app, ?app_nil_r; reflexivity.
Qed.

Lemma map_fst_append_if_num (name : string) (v : option Z)
  (p : URLSearchParams) :
  map fst (append_if_num name v p) =
  (map fst p ++ (if truthy_opt_num v then [name] else []))%list.
Proof.
  destruct v as [z|]; simpl; [destruct (truthy_num z)|];
    unfold params_append; rewrite ?map_app, ?app_nil_r; reflexivity.
Qed.

Lemma map_fst_append_if_tag {A} (tag : A -> string) (name : string)
  (v : option A) (p : URLSearchParams) :
  map fst (append_if_tag tag name v p) =
  (map fst p ++ (if truthy_opt_tag tag v then [name] else []))%list.
Proof. apply map_fst_append_if_str. Qed.

Lemma wireNames_filter_allFields (P : Field -> bool) :
  map wireName (filter P allFields) =
  ((if P FState then ["state"] else []) ++
   (if P FDistrict then ["district"] else []) ++
   (if P FYear then ["year"] else []) ++
   (if P FMonth then ["month"] else []) ++
   (if P FMetricType then ["metricType"] else []) ++
   (if P FAgeGroup then ["ageGroup"] else []) ++
   (if P FIndexType then ["indexType"] else []))%list.
Proof.
  unfold allFields; simpl.
  destruct (P FState), (P FDistrict), (P FYear), (P FMonth),
    (P FMetricType), (P FAgeGroup), (P FIndexType); reflexivity.
Qed.

(** The names of the parameters are the wire names of the fields whose
    guard passes, in the order of [allFields]. *)
Lemma query_param_names (f : AppliedFilters) :
  map fst (query_params f) = map wireName (filter (fieldTruthy f) allFields).
Proof.
  rewrite wireNames_filter_allFields.
  unfold query_params.
  rewrite !map_fst_append_if_tag, !map_fst_append_if_num,
    !map_fst_append_if_str.
  simpl; rewrite <- !app_assoc; reflexivity.
Qed.

Lemma in_append_if_str (x : string * string) name v p :
  In x p -> In x (append_if_str name v p).
Proof.
  intro H; destruct v as [s|]; simpl; [destruct (truthy_str s)|]; auto.
  unfold params_append; apply in_or_app; left; exact H.
Qed.

Lemma in_append_if_num (x : string * string) name v p :
  In x p -> In x (append_if_num name v p).
Proof.
  intro H; destruct v as [z|]; simpl; [destruct (truthy_num z)|]; auto.
  unfold params_append; apply in_or_app; left; exact H.
Qed.

Lemma in_append_if_tag {A} (tag : A -> string) (x : string * string) name v p :
  In x p -> In x (append_if_tag tag name v p).
Proof. apply in_append_if_str. Qed.

Lemma in_append_if_num_self name z p :
  z <> 0%Z -> In (name, number_toString z) (append_if_num name (Some z) p).
Proof.
  intro Hz; simpl; unfold truthy_num.
  destruct (Z.eqb_spec z 0); [contradiction|]; simpl.
  unfold params_append; apply in_or_app; right; left; reflexivity.
Qed.

Lemma truthy_str_app (a b : string) :
  truthy_str (a ++ b) = truthy_str a || truthy_str b.
Proof. destruct a; reflexivity. Qed.

Lemma join_amp_truthy (x : string) (rest : list string) :
  truthy_str x = true -> truthy_str (join_amp (x :: rest)) = true.
Proof.
  intro H; destruct rest as [|y rest]; simpl; [exact H|].
  rewrite truthy_str_app, H; reflexivity.
Qed.

Lemma params_toString_empty (p : URLSearchParams) :
  truthy_str (params_toString p) = false <-> p = [].
Proof.
  destruct p as [|[k v] p]; simpl; split; intro H; try reflexivity;
    try discriminate.
  unfold params_toString in H; simpl map in H.
  rewrite join_amp_truthy in H; [discriminate|].
  rewrite !truthy_str_app; simpl; rewrite orb_true_r; reflexivity.
Qed.

Lemma query_params_nil (f : AppliedFilters) :
  query_params f = [] <-> forall fld, fieldTruthy f fld = false.
Proof.
  split.
  - intros H fld.
    assert (Hn : map wireName (filter (fieldTruthy f) allFields) = [])
      by (rewrite <- query_param_names, H; reflexivity).
    destruct (fieldTruthy f fld) eqn:E; [|reflexivity].
    assert (Hin : In fld (filter (fieldTruthy f) allFields))
      by (apply filter_In; split; [destruct fld; simpl; tauto | exact E]).
    destruct (filter (fieldTruthy f) allFields); [contradiction|discriminate].
  - intro H.
    assert (Hn : map fst (query_params f) = []).
    { rewrite query_param_names.
      unfold allFields; cbn [filter]; rewrite !H; reflexivity. }
    destruct (query_params f); [reflexivity|discriminate].
Qed.

(** C2, as stated, fails: a field that is set to a falsy value ([year = 0],
    or an empty string) is skipped like an unset one; with no other field
    the result is the empty string although a field is set. *)
Lemma buildQueryString_set_but_skipped :
  let f := mkAppliedFilters None None (Some 0%Z) None None None None in
  fieldSet f FYear = true /\
  ~ In "year" (map fst (query_params f)) /\
  buildQueryString f = "".
Proof.
  simpl; split; [reflexivity|]; split; [simpl; tauto | reflexivity].
Qed.

(** C2 (amended): [buildQueryString] emits a parameter for a field exactly
    when the field's guard passes, i.e. the field is set to a truthy value
    (a non-empty string, a non-zero number, any enumeration tag); numbers
    are written as decimal text; the result is the empty string when no
    guard passes, and [?] followed by the serialised parameters otherwise;
    the empty filter gives the empty string. *)
Theorem buildQueryString_emits_truthy_fields :
  forall f : AppliedFilters,
    (forall fld, In (wireName fld) (map fst (query_params f)) <->
                 fieldTruthy f fld = true) /\
    (forall y, year f = Some y -> y <> 0%Z ->
               In ("year", number_toString y) (query_params f)) /\
    (forall m, month f = Some m -> m <> 0%Z ->
               In ("month", number_toString m) (query_params f)) /\
    (buildQueryString f = "" <-> forall fld, fieldTruthy f fld = false) /\
    ((exists fld, fieldTruthy f fld = true) ->
     buildQueryString f = "?" ++ params_toString (query_params f)) /\
    buildQueryString INITIAL_FILTERS = "".
Proof.
  intro f.
  assert (Hinj : forall a b, wireName a = wireName b -> a = b)
    by (intros [] []; simpl; congruence).
  assert (Hall : forall fld, In fld allFields)
    by (intros []; simpl; tauto).
  assert (Hempty : buildQueryString f = "" <-> query_params f = []).
  { unfold buildQueryString.
    rewrite <- params_toString_empty.
    destruct (truthy_str (params_toString (query_params f))); split;
      intro H; try reflexivity; discriminate. }
  split; [|split; [|split; [|split; [|split]]]].
  - intro fld; rewrite query_param_names, in_map_iff; split.
    + intros [fld' [Hw Hin]]; apply Hinj in Hw; subst fld'.
      apply filter_In in Hin; tauto.
    + intro H; exists fld; split; [reflexivity|].
      apply filter_In; auto.
  - intros y Hy Hz; unfold query_params; rewrite Hy.
    apply in_append_if_tag, in_append_if_tag, in_append_if_tag,
      in_append_if_num, in_append_if_num_self; exact Hz.
  - intros m Hm Hz; unfold query_params; rewrite Hm.
    apply in_append_if_tag, in_append_if_tag, in_append_if_tag,
      in_append_if_num_self; exact Hz.
  - rewrite Hempty; apply query_params_nil.
  - intros [fld Hfld].
    unfold buildQueryString.
    destruct (truthy_str (params_toString (query_params f))) eqn:E;
      [reflexivity|].
    apply params_toString_empty in E.
    pose proof (proj1 (query_params_nil f) E fld) as E2.
    rewrite E2 in Hfld; discriminate.
  - reflexivity.
Qed.

(** Scenarios B and C of the spec. *)
Example scenario_B : buildQueryString INITIAL_FILTERS = "".
Proof. reflexivity. Qed.

Example scenario_C :
  buildQueryString (mkAppliedFilters (Some "UP") None (Some 2025%Z)
                      None None None None) = "?state=UP&year=2025".
Proof. reflexivity. Qed.

Lemma buildQueryString_emits_truthy_fields_witness :
  let f := mkAppliedFilters (Some "UP") None (Some 2025%Z) None None None None in
  year f = Some 2025%Z /\ 2025%Z <> 0%Z /\
  In ("year", number_toString 2025) (query_params f) /\
  buildQueryString f = "?" ++ params_toString (query_params f).
Proof.
  simpl.
  assert (H := buildQueryString_emits_truthy_fields
                 (mkAppliedFilters (Some "UP") None (Some 2025%Z)
                    None None None None)).
  destruct H as [_ [Hy [_ [_ [Hq _]]]]].
  split; [reflexivity|]; split; [discriminate|]; split.
  - apply Hy; [reflexivity|discriminate].
  - apply Hq; exists FYear; reflexivity.
Defined.

(** C3: [buildQueryString] depends on nothing but the field values (so two
    calls on the same filters agree, however the filters were reached), and
    its parameters appear in the fixed order of the wire names [state],
    [district], [year], [month], [metricType], [ageGroup], [indexType]. *)
Theorem buildQueryString_fixed_order :
  (forall f g : AppliedFilters,
     (forall fld, getField f fld = getField g fld) ->
     buildQueryString f = buildQueryString g) /\
  (forall f : AppliedFilters,
     map fst (query_params f) = map wireName (filter (fieldTruthy f) allFields)) /\
  map wireName allFields =
    ["state"; "district"; "year"; "month"; "metricType"; "ageGroup";
     "indexType"].
Proof.
  split; [|split; [exact query_param_names | reflexivity]].
  intros [s d y m mt ag it] [s' d' y' m' mt' ag' it'] H.
  pose proof (H FState) as H1; pose proof (H FDistrict) as H2;
  pose proof (H FYear) as H3; pose proof (H FMonth) as H4;
  pose proof (H FMetricType) as H5; pose proof (H FAgeGroup) as H6;
  pose proof (H FIndexType) as H7; simpl in *.
  injection H1; injection H2; injection H3; injection H4; injection H5;
    injection H6; injection H7; intros; subst; reflexivity.
Qed.

Lemma buildQueryString_fixed_order_witness :
  let f := finalFilters INITIAL_FILTERS
             [ActYear (Some 2025%Z); ActState (Some "UP")] in
  let g := finalFilters INITIAL_FILTERS
             [ActState (Some "UP"); ActYear (Some 2025%Z)] in
  (forall fld, getField f fld = getField g fld) /\
  buildQueryString f = buildQueryString g.
Proof.
  simpl; split.
  - intros []; reflexivity.
  - apply (proj1 buildQueryString_fixed_order); intros []; reflexivity.
Defined.

(* ------------------------------------------------------------------ *)
(** ** [fetchOptions] *)

(** C4, as stated, fails: after the fallback is in place the recorded
    failure message is still there. *)
Lemma fetchOptions_fallback_keeps_error :
  let '(_, s, _) :=
    fetchOptions (Rejected (ErrorObj "Network error")) initialHookState in
  filterOptions s = Some fallbackOptions /\
  optionsError s = Some "Network error" /\ optionsError s <> None.
Proof.
  simpl; split; [reflexivity|]; split; [reflexivity|discriminate].
Qed.

(** C4 (amended): when the metadata fetch rejects, the fallback options are
    installed and the error state keeps the failure message ([err.message]
    for an [Error], ['Failed to load filter options'] otherwise); it is
    cleared only at the start of a load ([null] while the request is
    pending) and stays cleared when that load succeeds. *)
Theorem fetchOptions_fallback_records_error :
  forall (s0 : HookState),
    (forall e : Thrown,
       let '(_, s, pending) := fetchOptions (Rejected e) s0 in
       filterOptions s = Some fallbackOptions /\
       optionsError s = Some (errorMessage e) /\
       Forall (fun st => optionsError st = None) pending) /\
    (forall o : FilterOptions,
       let '(_, s, pending) := fetchOptions (Resolved o) s0 in
       filterOptions s = Some o /\ optionsError s = None /\
       Forall (fun st => optionsError st = None) pending).
Proof.
  intro s0; split; [intro e | intro o]; simpl;
    repeat split; repeat constructor.
Qed.

(** C5: [fetchOptions] always resolves.  When the metadata fetch rejects,
    the options become the fallback: non-empty years, exactly the twelve
    months [1..12], the complete enumerations of metric types, age groups
    and index types, no states and no districts.  The loading flag is true
    while the request is pending and false once the call completes, on
    success as on fallback. *)
Theorem fetchOptions_fallback_catalog :
  forall (s0 : HookState),
    (forall e : Thrown,
       let '(r, s, pending) := fetchOptions (Rejected e) s0 in
       r = Resolved tt /\
       (exists o, filterOptions s = Some o /\
          years o <> [] /\
          length (months o) = 12 /\
          map m_value (months o) = [1; 2; 3; 4; 5; 6; 7; 8; 9; 10; 11; 12]%Z /\
          (forall m, In m (metricTypes o)) /\
          (forall a, In a (ageGroups o)) /\
          (forall i, In i (indexTypes o)) /\
          states o = [] /\ districts o = []) /\
       loadingOptions s = false /\
       pending <> [] /\ Forall (fun st => loadingOptions st = true) pending) /\
    (forall o : FilterOptions,
       let '(r, s, pending) := fetchOptions (Resolved o) s0 in
       r = Resolved tt /\ filterOptions s = Some o /\
       loadingOptions s = false /\
       pending <> [] /\ Forall (fun st => loadingOptions st = true) pending).
Proof.
  intro s0; split; [intro e | intro o]; simpl.
  - split; [reflexivity|]; split.
    + exists fallbackOptions; simpl.
      split; [reflexivity|]; split; [discriminate|].
      split; [reflexivity|]; split; [reflexivity|].
      split; [intros []; simpl; tauto|].
      split; [intros []; simpl; tauto|].
      split; [intros []; simpl; tauto|].
      split; reflexivity.
    + split; [reflexivity|]; split; [discriminate|repeat constructor].
  - split; [reflexivity|]; split; [reflexivity|]; split; [reflexivity|].
    split; [discriminate|repeat constructor].
Qed.

(* ------------------------------------------------------------------ *)
(** ** [filteredDistricts] *)

(** C6, as stated, fails: a state set to the empty string selects nothing
    and the full district list is returned, including districts whose
    [stateCode] differs from it. *)
Lemma filteredDistricts_empty_state :
  let d := mkDistrictOption "LKO" "Lucknow" "UP" in
  let o := mkFilterOptions [] [d] [] [] [] [] [] in
  let f := setStateFilter (Some "") INITIAL_FILTERS in
  state f = Some "" /\
  filteredDistricts (Some o) f = [d] /\
  filter (fun d => String.eqb (stateCode d) "") (districts o) = [] /\
  stateCode d <> "".
Proof.
  simpl; split; [reflexivity|]; split; [reflexivity|];
    split; [reflexivity|discriminate].
Qed.

(** C6 (amended): with no options loaded the result is empty; with the
    state unset or the empty string it is the whole district list; with a
    non-empty state it is exactly the districts, in order, whose
    [stateCode] equals the state, so every element has that state code. *)
Theorem filteredDistricts_by_state :
  forall (o : FilterOptions) (f : AppliedFilters),
    filteredDistricts None f = [] /\
    ((state f = None \/ state f = Some "") ->
     filteredDistricts (Some o) f = districts o) /\
    (forall st, state f = Some st -> st <> "" ->
       filteredDistricts (Some o) f =
         filter (fun d => String.eqb (stateCode d) st) (districts o) /\
       (forall d, In d (filteredDistricts (Some o) f) <->
                  In d (districts o) /\ stateCode d = st)).
Proof.
  intros o f; split; [reflexivity|]; split.
  - unfold filteredDistricts; intros [H|H]; rewrite H; reflexivity.
  - intros st Hst Hne.
    assert (Heq : filteredDistricts (Some o) f =
                  filter (fun d => String.eqb (stateCode d) st) (districts o)).
    { unfold filteredDistricts; rewrite Hst.
      destruct st as [|c st']; [contradiction|reflexivity]. }
    split; [exact Heq|].
    intro d; rewrite Heq, filter_In, String.eqb_eq; tauto.
Qed.

Lemma filteredDistricts_by_state_witness :
  let d1 := mkDistrictOption "LKO" "Lucknow" "UP" in
  let d2 := mkDistrictOption "PAT" "Patna" "BR" in
  let o := mkFilterOptions [] [d1; d2] [] [] [] [] [] in
  let f := setStateFilter (Some "UP") INITIAL_FILTERS in
  state f = Some "UP" /\ filteredDistricts (Some o) f = [d1].
Proof.
  cbv zeta; split; [reflexivity|].
  destruct (proj2 (proj2 (filteredDistricts_by_state
    (mkFilterOptions [] [mkDistrictOption "LKO" "Lucknow" "UP";
                         mkDistrictOption "PAT" "Patna" "BR"] [] [] [] [] [])
    (setStateFilter (Some "UP") INITIAL_FILTERS))) "UP") as [H _];
    [reflexivity|discriminate|].
  rewrite H; reflexivity.
Defined.

(* ------------------------------------------------------------------ *)
(** ** The search effect of [Header] *)

Module HeaderFacts.
Import Header.

Lemma effectRunsFrom_incl (prev : js_string) (renders : list js_string) q :
  In q (effectRunsFrom prev renders) -> In q renders.
Proof.
  revert prev; induction renders as [|r rest IH]; intros prev H; simpl in *;
    [exact H|].
  destruct (list_eq_dec Z.eq_dec r prev).
  - right; eapply IH; exact H.
  - destruct H as [H|H]; [left; exact H | right; eapply IH; exact H].
Qed.

Lemma effectRuns_incl (renders : list js_string) q :
  In q (effectRuns renders) -> In q renders.
Proof.
  destruct renders as [|r rest]; simpl; [tauto|].
  intros [H|H]; [left; exact H | right; eapply effectRunsFrom_incl; exact H].
Qed.

Lemma searchEffect_calls (toLower : js_string -> js_string) q out q' :
  In (CallSearch q') (searchEffect toLower q out) ->
  q' = q /\ (2 <= length q)%nat.
Proof.
  unfold searchEffect.
  destruct (Nat.ltb_spec (length q) 2) as [Hlt|Hge].
  - simpl; intros [H|[H|[]]]; discriminate.
  - intro H; split; [|exact Hge].
    simpl in H; destruct H as [H|[H|H]]; [discriminate|congruence|].
    apply in_app_or in H; destruct H as [H|H].
    + destruct out; simpl in H; intuition discriminate.
    + simpl in H; intuition discriminate.
Qed.

(** C8: below two code units the effect clears the results (and hides
    them) and does not call [search]; from two code units on it calls
    [search] with the debounced value; over any sequence of renders,
    [search] is only ever called with a rendered debounced value of at
    least two code units. *)
Theorem search_requires_two_chars :
  forall toLower : js_string -> js_string,
    (forall q out, (length q < 2)%nat ->
       searchEffect toLower q out =
         [SetSearchResults []; SetShowSearchResults false] /\
       (forall q', ~ In (CallSearch q') (searchEffect toLower q out))) /\
    (forall q out, (2 <= length q)%nat ->
       In (CallSearch q) (searchEffect toLower q out)) /\
    (forall renders outcome q',
       In (CallSearch q') (headerTrace toLower renders outcome) ->
       (2 <= length q')%nat /\ In q' renders).
Proof.
  intro toLower; split; [|split].
  - intros q out Hlt.
    assert (E : searchEffect toLower q out =
                [SetSearchResults []; SetShowSearchResults false]).
    { unfold searchEffect; apply Nat.ltb_lt in Hlt; rewrite Hlt; reflexivity. }
    split; [exact E|].
    intros q' H; rewrite E in H; simpl in H; intuition discriminate.
  - intros q out Hge; unfold searchEffect.
    destruct (Nat.ltb_spec (length q) 2); [exfalso; apply (Nat.lt_irrefl 2);
      eapply Nat.le_lt_trans; eassumption|].
    simpl; right; left; reflexivity.
  - intros renders outcome q' H.
    unfold headerTrace in H; apply in_flat_map in H.
    destruct H as [q [Hq Hin]].
    apply searchEffect_calls in Hin; destruct Hin as [-> Hge].
    split; [exact Hge | eapply effectRuns_incl; exact Hq].
Qed.

Lemma search_requires_two_chars_witness :
  searchEffect (fun s => s) (js "a") (Rejected NonError) =
    [SetSearchResults []; SetShowSearchResults false] /\
  In (CallSearch (js "Lu"))
     (searchEffect (fun s => s) (js "Lu") (Rejected NonError)).
Proof.
  destruct (search_requires_two_chars (fun s => s)) as [H1 [H2 _]].
  split.
  - apply (H1 (js "a") (Rejected NonError)); simpl; repeat constructor.
  - apply H2; simpl; repeat constructor.
Defined.

End HeaderFacts.

(* ------------------------------------------------------------------ *)
(** ** The debounced input controller *)

Module DebounceFacts.
Import Debounce.

Section Facts.

Context {V : Type} (V_eq_dec : forall a b : V, {a = b} + {a <> b}) (D : Z).

Local Abbreviation State := (DebounceState V).
Local Abbreviation advance := (Debounce.advance V).
Local Abbreviation inputAt := (Debounce.inputAt V V_eq_dec D).
Local Abbreviation feed := (Debounce.feed V V_eq_dec D).
Local Abbreviation outputAt := (Debounce.outputAt V V_eq_dec D).
Local Abbreviation burstAfter := (Debounce.burstAfter V D).

(** Every state reached: without a pending timer the output is up to date,
    and a pending timer expires at most [D] after the last input. *)
Definition settledBy (s : State) (t : Z) : Prop :=
  (pendingTimer V s = None -> stableValue V s = rawValue V s) /\
  (forall d, pendingTimer V s = Some d -> (d <= t + D)%Z).

Lemma rawValue_inputAt (t : Z) (v : V) (s : State) :
  rawValue V (inputAt t v s) = v.
Proof.
  unfold Debounce.inputAt.
  destruct (V_eq_dec v (rawValue V (advance t s))); simpl; auto.
Qed.

Lemma settledBy_inputAt (s : State) (t t' : Z) (v : V) :
  settledBy s t -> (t <= t')%Z -> settledBy (inputAt t' v s) t'.
Proof.
  intros [Hn Hs] Hle.
  assert (Ha : settledBy (advance t' s) t').
  { unfold Debounce.advance.
    destruct (pendingTimer V s) as [d|] eqn:E.
    - destruct (Z.leb_spec d t').
      + split; simpl; [reflexivity | discriminate].
      + split; [intro Hd; rewrite E in Hd; discriminate|].
        intros d' Hd'; rewrite E in Hd'; injection Hd' as <-.
        specialize (Hs d eq_refl); lia.
    - split; [intros _; apply Hn; reflexivity|].
      intros d Hd; rewrite E in Hd; discriminate. }
  unfold Debounce.inputAt.
  destruct (V_eq_dec v (rawValue V (advance t' s))) as [_|_]; [exact Ha|].
  split; simpl; [discriminate|].
  intros d Hd; injection Hd as <-; lia.
Qed.

Fixpoint lastTime (t0 : Z) (evs : list (Z * V)) : Z :=
  match evs with
  | [] => t0
  | (t, _) :: rest => lastTime t rest
  end.

Lemma settledBy_feed (evs : list (Z * V)) :
  forall (s : State) (t0 : Z),
    settledBy s t0 -> chronoFrom V t0 evs ->
    settledBy (feed s evs) (lastTime t0 evs).
Proof.
  induction evs as [|[t v] rest IH]; intros s t0 Hs Hc; simpl in *; [exact Hs|].
  destruct Hc as [Hle Hc].
  apply IH; [apply (settledBy_inputAt s t0 t v Hs Hle) | exact Hc].
Qed.

Lemma chronoFrom_le_last (evs : list (Z * V)) :
  forall t0, chronoFrom V t0 evs ->
    (t0 <= lastTime t0 evs)%Z /\
    (forall e, In e evs -> (t0 <= fst e /\ fst e <= lastTime t0 evs)%Z).
Proof.
  induction evs as [|[t v] rest IH]; intros t0 Hc; simpl in *.
  - split; [lia | tauto].
  - destruct Hc as [Hle Hc]; destruct (IH t Hc) as [Hl He].
    split; [lia|].
    intros e [<-|Hin]; simpl; [lia|].
    specialize (He e Hin); lia.
Qed.

Lemma lastTime_snoc (t0 : Z) (prefix : list (Z * V)) (tl : Z) (vl : V) :
  lastTime t0 (prefix ++ [(tl, vl)]) = tl.
Proof.
  revert t0; induction prefix as [|[t v] rest IH]; intro t0; simpl; auto.
Qed.

Lemma feed_app (s : State) (xs ys : list (Z * V)) :
  feed s (xs ++ ys) = feed (feed s xs) ys.
Proof.
  revert s; induction xs as [|[t v] xs IH]; intro s; simpl; auto.
Qed.

Lemma filter_all {A} (P : A -> bool) (l : list A) :
  (forall x, In x l -> P x = true) -> filter P l = l.
Proof.
  induction l as [|x l IH]; intro H; simpl; auto.
  rewrite (H x (or_introl eq_refl)), IH; auto.
  intros y Hy; apply H; right; exact Hy.
Qed.

Lemma filter_none {A} (P : A -> bool) (l : list A) :
  (forall x, In x l -> P x = false) -> filter P l = [].
Proof.
  induction l as [|x l IH]; intro H; simpl; auto.
  rewrite (H x (or_introl eq_refl)), IH; auto.
  intros y Hy; apply H; right; exact Hy.
Qed.

Lemma burstAfter_chrono (evs : list (Z * V)) :
  forall prev, burstAfter prev evs -> chronoFrom V (fst prev) evs.
Proof.
  induction evs as [|[t v] rest IH]; intros prev Hb; simpl in *; auto.
  destruct Hb as [Hle [_ [_ Hb]]]; split; [exact Hle|].
  apply (IH (t, v)); exact Hb.
Qed.

Lemma last_nonempty_indep {A} (b : A) (l : list A) (d d' : A) :
  last (b :: l) d = last (b :: l) d'.
Proof.
  revert b; induction l as [|c l IH]; intro b; [reflexivity|].
  exact (IH c).
Qed.

Lemma last_cons_indep {A} (a : A) (l : list A) (d : A) :
  last (a :: l) d = last l a.
Proof.
  destruct l as [|b l]; [reflexivity|].
  change (last (b :: l) d = last (b :: l) a).
  apply last_nonempty_indep.
Qed.

Lemma lastTime_last (t0 : Z) (v0 : V) (evs : list (Z * V)) :
  fst (last evs (t0, v0)) = lastTime t0 evs.
Proof.
  revert t0 v0; induction evs as [|[t v] rest IH]; intros t0 v0; [reflexivity|].
  rewrite last_cons_indep; simpl; apply IH.
Qed.

Lemma chronological_from (evs : list (Z * V)) :
  chronological V evs -> exists t0, chronoFrom V t0 evs.
Proof.
  destruct evs as [|[t v] rest]; intro H; [exists 0%Z; exact I | exists t; exact H].
Qed.

Lemma inputAt_first_change (t : Z) (v init : V) :
  v <> init ->
  inputAt t v (initialDebounce V init) =
  mkDebounceState V v init (Some (t + D)%Z).
Proof.
  intro Hne; unfold Debounce.inputAt; simpl.
  destruct (V_eq_dec v init); [contradiction | reflexivity].
Qed.

(** Inside a burst the output keeps its old value; after the last change
    it switches to that change's value once the delay has elapsed. *)
Lemma burst_output (init : V) (HD : (0 < D)%Z) (rest : list (Z * V)) :
  forall (t : Z) (v : V) (s : State) (T : Z),
    stableValue V s = init -> rawValue V s = v ->
    pendingTimer V s = Some (t + D)%Z ->
    (t <= T)%Z -> burstAfter (t, v) rest ->
    stableValue V (advance T (feed s (filter (fun e => Z.leb (fst e) T) rest)))
    = if Z.leb (fst (last rest (t, v)) + D) T
      then snd (last rest (t, v)) else init.
Proof.
  induction rest as [|[t1 v1] rest IH]; intros t v s T Hst Hraw Hp HT Hb.
  - simpl; unfold Debounce.advance; rewrite Hp.
    destruct (Z.leb (t + D) T); simpl; congruence.
  - simpl in Hb; destruct Hb as [Hle [Hlt [Hne Hb]]].
    rewrite last_cons_indep.
    destruct (Z.leb_spec t1 T) as [H1|H1].
    + cbn [filter fst]; rewrite (proj2 (Z.leb_le t1 T) H1); cbn [feed].
      assert (Hs : inputAt t1 v1 s = mkDebounceState V v1 init (Some (t1 + D)%Z)).
      { unfold Debounce.inputAt, Debounce.advance; rewrite Hp.
        destruct (Z.leb_spec (t + D) t1); [lia|].
        rewrite Hraw; destruct (V_eq_dec v1 v); [contradiction|].
        rewrite Hst; reflexivity. }
      rewrite Hs; apply IH; auto.
    + pose proof (burstAfter_chrono rest (t1, v1) Hb) as Hc.
      destruct (chronoFrom_le_last rest t1 Hc) as [Hl He].
      rewrite filter_none.
      * simpl; unfold Debounce.advance; rewrite Hp.
        destruct (Z.leb_spec (t + D) T); [lia|].
        rewrite lastTime_last.
        destruct (Z.leb_spec (lastTime t1 rest + D) T); [lia|]; exact Hst.
      * intros [t' v'] Hin; simpl.
        destruct Hin as [Hin|Hin];
          [injection Hin as <- <-; apply Z.leb_gt; lia|].
        destruct (He (t', v') Hin) as [H2 _]; simpl in H2.
        apply Z.leb_gt; lia.
Qed.

(** C9 (modelled from the spec): with a positive delay [D], once the input
    has not changed for at least [D] after its last change, the output is
    the last value; and during a burst of changes each coming before the
    delay after the previous one has elapsed, the output keeps its earlier
    value until [D] after the last change and then shows the last value,
    so no superseded value of the burst is ever output. *)
Theorem debounce_publishes_last_value_of_burst :
  (0 < D)%Z ->
  (forall (init : V) (prefix : list (Z * V)) (tl : Z) (vl : V) (T : Z),
     chronological V (prefix ++ [(tl, vl)]) -> (tl + D <= T)%Z ->
     outputAt init (prefix ++ [(tl, vl)]) T = vl) /\
  (forall (init : V) (t0 : Z) (v0 : V) (rest : list (Z * V)),
     v0 <> init -> burstAfter (t0, v0) rest ->
     forall T, outputAt init ((t0, v0) :: rest) T =
       if Z.leb (fst (last rest (t0, v0)) + D) T
       then snd (last rest (t0, v0)) else init).
Proof.
  intro HD; split.
  - intros init prefix tl vl T Hc HT.
    destruct (chronological_from _ Hc) as [t0 Hc0].
    destruct (chronoFrom_le_last _ t0 Hc0) as [_ He].
    rewrite lastTime_snoc in He.
    unfold Debounce.outputAt.
    rewrite filter_all by (intros e Hin; apply Z.leb_le;
                           specialize (He e Hin); lia).
    assert (Hs : settledBy (feed (initialDebounce V init) (prefix ++ [(tl, vl)]))
                   (lastTime t0 (prefix ++ [(tl, vl)]))).
    { apply settledBy_feed; [|exact Hc0].
      split; [reflexivity | intros d Hd; discriminate]. }
    rewrite lastTime_snoc in Hs.
    assert (Hr : rawValue V (feed (initialDebounce V init) (prefix ++ [(tl, vl)])) = vl)
      by (rewrite feed_app; simpl; apply rawValue_inputAt).
    destruct Hs as [Hn Hd].
    unfold Debounce.advance.
    destruct (pendingTimer V (feed (initialDebounce V init) (prefix ++ [(tl, vl)])))
      as [d|] eqn:E.
    + specialize (Hd d eq_refl).
      destruct (Z.leb_spec d T); [simpl; exact Hr | lia].
    + rewrite (Hn eq_refl); exact Hr.
  - intros init t0 v0 rest Hne Hb T.
    unfold Debounce.outputAt.
    destruct (Z.leb_spec t0 T) as [H0|H0].
    + cbn [filter fst]; rewrite (proj2 (Z.leb_le t0 T) H0); cbn [feed].
      rewrite inputAt_first_change by exact Hne.
      apply burst_output; auto.
    + pose proof (burstAfter_chrono rest (t0, v0) Hb) as Hc.
      destruct (chronoFrom_le_last rest t0 Hc) as [Hl He].
      rewrite filter_none.
      * simpl; rewrite lastTime_last.
        destruct (Z.leb_spec (lastTime t0 rest + D) T); [lia | reflexivity].
      * intros [t' v'] Hin; simpl in *.
        destruct Hin as [Hin|Hin];
          [injection Hin as <- <-; apply Z.leb_gt; lia|].
        destruct (He (t', v') Hin) as [H2 _]; simpl in H2.
        apply Z.leb_gt; lia.
Qed.

End Facts.

(** Scenario D: delay 300 ms, changes at 0, 100 and 250 ms; the output
    keeps its initial value until 550 ms and then shows the last value. *)
Lemma debounce_publishes_last_value_of_burst_witness :
  (0 < 300)%Z /\
  Debounce.outputAt nat Nat.eq_dec 300 0
    [(0%Z, 1); (100%Z, 2); (250%Z, 3)] 550 = 3 /\
  Debounce.outputAt nat Nat.eq_dec 300 0
    [(0%Z, 1); (100%Z, 2); (250%Z, 3)] 549 = 0.
Proof.
  assert (HD : (0 < 300)%Z) by lia.
  destruct (debounce_publishes_last_value_of_burst Nat.eq_dec 300 HD)
    as [Ha Hb].
  split; [exact HD|]; split.
  - apply (Ha 0 [(0%Z, 1); (100%Z, 2)] 250%Z 3 550%Z); simpl; lia.
  - rewrite (Hb 0 0%Z 1 [(100%Z, 2); (250%Z, 3)]); [reflexivity | discriminate |].
    simpl; repeat split; try lia; discriminate.
Defined.

End DebounceFacts.

(* ------------------------------------------------------------------ *)
(** ** URL encodings: round trips *)

Module EncodingFacts.

Lemma plus_to_space_app (a b : string) :
  plus_to_space (a ++ b) = plus_to_space a ++ plus_to_space b.
Proof. induction a as [|c a IH]; simpl; [reflexivity | rewrite IH; reflexivity]. Qed.

Lemma has_char_app (x : ascii) (a b : string) :
  has_char x (a ++ b) = has_char x a || has_char x b.
Proof.
  induction a as [|c a IH]; simpl; [reflexivity | rewrite IH, orb_assoc; reflexivity].
Qed.

(** Each encoded byte decodes back to itself, whatever follows it. *)
Lemma form_decode_encode_byte (c : ascii) (r : string) :
  percent_decode (plus_to_space (form_encode_byte c) ++ r) =
  String c (percent_decode r).
Proof. destruct c as [[] [] [] [] [] [] [] []]; reflexivity. Qed.

Lemma uri_decode_encode_byte (c : ascii) (r : string) :
  percent_decode (uri_component_byte c ++ r) = String c (percent_decode r).
Proof. destruct c as [[] [] [] [] [] [] [] []]; reflexivity. Qed.

Lemma form_encode_byte_no_sep (c : ascii) :
  has_char "&" (form_encode_byte c) = false /\
  has_char "=" (form_encode_byte c) = false.
Proof. destruct c as [[] [] [] [] [] [] [] []]; split; reflexivity. Qed.

(** The bytes an encoded URI component never contains. *)
Lemma uri_component_byte_no_reserved (c : ascii) :
  forallb (fun x => negb (has_char x (uri_component_byte c))) uri_reserved = true.
Proof. destruct c as [[] [] [] [] [] [] [] []]; reflexivity. Qed.

Lemma form_encode_no_sep (s : string) :
  has_char "&" (form_encode s) = false /\ has_char "=" (form_encode s) = false.
Proof.
  induction s as [|c s [IH1 IH2]]; simpl; [split; reflexivity|].
  destruct (form_encode_byte_no_sep c) as [H1 H2].
  rewrite !has_char_app, H1, H2, IH1, IH2; split; reflexivity.
Qed.

Lemma form_decode_encode (s : string) : form_decode (form_encode s) = s.
Proof.
  unfold form_decode.
  induction s as [|c s IH]; simpl; [reflexivity|].
  rewrite plus_to_space_app, form_decode_encode_byte, IH; reflexivity.
Qed.

Lemma uri_decode_encode (s : string) :
  percent_decode (encodeURIComponent s) = s.
Proof.
  induction s as [|c s IH]; simpl; [reflexivity|].
  rewrite uri_decode_encode_byte, IH; reflexivity.
Qed.

Lemma encodeURIComponent_no_reserved (s : string) :
  forallb (fun x => negb (has_char x (encodeURIComponent s))) uri_reserved = true.
Proof.
  induction s as [|c s IH]; simpl; [reflexivity|].
  pose proof (uri_component_byte_no_reserved c) as Hc.
  simpl in Hc, IH |- *.
  rewrite !has_char_app.
  destruct (has_char "&" (uri_component_byte c)),
    (has_char "=" (uri_component_byte c)), (has_char "#" (uri_component_byte c)),
    (has_char "?" (uri_component_byte c)), (has_char "/" (uri_component_byte c)),
    (has_char "+" (uri_component_byte c)), (has_char " " (uri_component_byte c));
    try discriminate; exact IH.
Qed.

Lemma split_on_no_sep (sep : ascii) (a : string) :
  has_char sep a = false -> split_on sep a = [a].
Proof.
  induction a as [|c a IH]; intro H; simpl in *; [reflexivity|].
  apply orb_false_iff in H; destruct H as [H1 H2].
  rewrite Ascii.eqb_sym, H1, IH by exact H2; reflexivity.
Qed.

Lemma split_on_app (sep : ascii) (a b : string) :
  has_char sep a = false -> split_on sep (a ++ String sep b) = a :: split_on sep b.
Proof.
  induction a as [|c a IH]; intro H; simpl in *.
  - rewrite Ascii.eqb_refl; reflexivity.
  - apply orb_false_iff in H; destruct H as [H1 H2].
    rewrite Ascii.eqb_sym, H1, IH by exact H2; reflexivity.
Qed.

Lemma split_at_first_app (sep : ascii) (a b : string) :
  has_char sep a = false -> split_at_first sep (a ++ String sep b) = (a, b).
Proof.
  induction a as [|c a IH]; intro H; simpl in *.
  - rewrite Ascii.eqb_refl; reflexivity.
  - apply orb_false_iff in H; destruct H as [H1 H2].
    rewrite Ascii.eqb_sym, H1, IH by exact H2; reflexivity.
Qed.

Lemma split_join_amp (xs : list string) :
  xs <> [] -> Forall (fun x => has_char "&" x = false) xs ->
  split_on "&" (join_amp xs) = xs.
Proof.
  induction xs as [|x xs IH]; intros Hne Hall; [congruence|].
  inversion Hall as [|? ? Hx Hrest]; subst.
  destruct xs as [|y ys].
  - simpl; apply split_on_no_sep; exact Hx.
  - change (join_amp (x :: y :: ys)) with (x ++ "&" ++ join_amp (y :: ys)).
    change ("&" ++ join_amp (y :: ys)) with (String "&" (join_amp (y :: ys))).
    rewrite split_on_app by exact Hx.
    rewrite IH; [reflexivity | discriminate | exact Hrest].
Qed.

Lemma encode_pair_props (kv : string * string) :
  has_char "&" (encode_pair kv) = false /\ truthy_str (encode_pair kv) = true /\
  split_at_first "=" (encode_pair kv) = (form_encode (fst kv), form_encode (snd kv)).
Proof.
  destruct kv as [k v]; unfold encode_pair; simpl fst; simpl snd.
  destruct (form_encode_no_sep k) as [Hk1 Hk2].
  destruct (form_encode_no_sep v) as [Hv1 Hv2].
  split; [|split].
  - rewrite !has_char_app, Hk1, Hv1; reflexivity.
  - rewrite truthy_str_app; simpl; apply orb_true_r.
  - apply split_at_first_app; exact Hk2.
Qed.

(** Parsing the serialisation of a parameter list gives the list back. *)
Lemma parse_params_toString (p : URLSearchParams) :
  parse_urlencoded (params_toString p) = p.
Proof.
  destruct p as [|kv p]; [reflexivity|].
  unfold parse_urlencoded, params_toString.
  change (fun kv0 : string * string =>
            form_encode (fst kv0) ++ "=" ++ form_encode (snd kv0)) with encode_pair.
  rewrite split_join_amp.
  - rewrite DebounceFacts.filter_all.
    + rewrite map_map.
      transitivity (map (fun kv0 => kv0) (kv :: p)); [|apply map_id].
      apply map_ext; intro a.
      destruct (encode_pair_props a) as [_ [_ ->]].
      rewrite !form_decode_encode; destruct a; reflexivity.
    + intros x Hx; apply in_map_iff in Hx; destruct Hx as [a [<- _]].
      apply encode_pair_props.
  - discriminate.
  - apply Forall_forall; intros x Hx; apply in_map_iff in Hx.
    destruct Hx as [a [<- _]]; apply encode_pair_props.
Qed.

End EncodingFacts.

Module EncodingExtras.
Import EncodingFacts.

Lemma uri_no_char (x : ascii) (s : string) :
  In x uri_reserved -> has_char x (encodeURIComponent s) = false.
Proof.
  intro Hx.
  pose proof (proj1 (forallb_forall _ _) (encodeURIComponent_no_reserved s) x Hx)
    as H; simpl in H.
  apply negb_true_iff; exact H.
Qed.

Lemma plus_to_space_id (s : string) :
  has_char "+" s = false -> plus_to_space s = s.
Proof.
  induction s as [|c s IH]; intro H; cbn [plus_to_space has_char] in *;
    [reflexivity|].
  apply orb_false_iff in H; destruct H as [H1 H2].
  rewrite Ascii.eqb_sym, H1, IH by exact H2; reflexivity.
Qed.

Lemma append_if_str_cons n v x r :
  exists r', append_if_str n v (x :: r) = x :: r'.
Proof.
  unfold append_if_str, params_append.
  destruct v as [s|]; [destruct (truthy_str s)|]; eexists; reflexivity.
Qed.

Lemma append_if_num_cons n v x r :
  exists r', append_if_num n v (x :: r) = x :: r'.
Proof.
  unfold append_if_num, params_append.
  destruct v as [z|]; [destruct (truthy_num z)|]; eexists; reflexivity.
Qed.

Lemma append_if_tag_cons {A} (tag : A -> string) n v x r :
  exists r', append_if_tag tag n v (x :: r) = x :: r'.
Proof. apply append_if_str_cons. Qed.

(** A truthy state is the first parameter of the query. *)
Lemma query_params_state_head f s :
  state f = Some s -> truthy_str s = true ->
  exists r, query_params f = ("state", s) :: r.
Proof.
  intros Hs Ht; unfold query_params; cbv zeta.
  replace (append_if_str "state" (state f) []) with [("state", s)]
    by (rewrite Hs; unfold append_if_str; rewrite Ht; reflexivity).
  destruct (append_if_str_cons "district" (district f) ("state", s) []) as [r1 E1].
  rewrite E1.
  destruct (append_if_num_cons "year" (year f) ("state", s) r1) as [r2 E2].
  rewrite E2.
  destruct (append_if_num_cons "month" (month f) ("state", s) r2) as [r3 E3].
  rewrite E3.
  destruct (append_if_tag_cons MetricType_str "metricType" (metricType f) ("state", s) r3)
    as [r4 E4].
  rewrite E4.
  destruct (append_if_tag_cons AgeGroup_str "ageGroup" (ageGroup f) ("state", s) r4)
    as [r5 E5].
  rewrite E5.
  destruct (append_if_tag_cons IndexType_str "indexType" (indexType f) ("state", s) r5)
    as [r6 E6].
  rewrite E6; eauto.
Qed.

Lemma query_component_buildQueryString (f : AppliedFilters) :
  parse_urlencoded (query_component (buildQueryString f)) = query_params f.
Proof.
  unfold buildQueryString.
  destruct (truthy_str (params_toString (query_params f))) eqn:E.
  - unfold query_component; simpl.
    apply parse_params_toString.
  - apply params_toString_empty in E; rewrite E; reflexivity.
Qed.

(** X2: [buildQueryString] loses nothing it emits: two filter states with the
    same query string append the same parameters, pass the same field
    guards, and when a state is emitted it is the same state. *)
Theorem buildQueryString_injective :
  forall f g : AppliedFilters,
    buildQueryString f = buildQueryString g ->
    query_params f = query_params g /\
    (forall fld, fieldTruthy f fld = fieldTruthy g fld) /\
    (truthy_opt_str (state f) = true -> state f = state g).
Proof.
  intros f g H.
  assert (Hp : query_params f = query_params g).
  { rewrite <- (query_component_buildQueryString f),
      <- (query_component_buildQueryString g), H.
    reflexivity. }
  assert (Hinj : forall a b, wireName a = wireName b -> a = b)
    by (intros [] []; simpl; congruence).
  assert (Htr : forall h fld, fieldTruthy h fld = true <->
                In (wireName fld) (map fst (query_params h))).
  { intros h fld; rewrite query_param_names, in_map_iff; split.
    - intro Ht; exists fld; split; [reflexivity|].
      apply filter_In; split; [destruct fld; simpl; tauto | exact Ht].
    - intros [fld' [Hw Hin]]; apply Hinj in Hw; subst fld'.
      apply filter_In in Hin; tauto. }
  split; [exact Hp|]; split.
  - intro fld.
    destruct (fieldTruthy f fld) eqn:Ef, (fieldTruthy g fld) eqn:Eg; auto.
    + apply Htr in Ef; rewrite Hp in Ef; apply Htr in Ef; congruence.
    + apply Htr in Eg; rewrite <- Hp in Eg; apply Htr in Eg; congruence.
  - intro Hs.
    assert (Hg : truthy_opt_str (state g) = true).
    { change (fieldTruthy g FState = true).
      apply Htr; rewrite <- Hp; apply Htr; exact Hs. }
    destruct (state f) as [s|] eqn:Ef, (state g) as [s'|] eqn:Eg;
      simpl in Hs, Hg; try discriminate.
    destruct (query_params_state_head f s Ef Hs) as [r Hr].
    destruct (query_params_state_head g s' Eg Hg) as [r' Hr'].
    rewrite Hr, Hr' in Hp; congruence.
Qed.

(** X1: the query component of [buildQueryString f], parsed as a form-encoded
    string, gives back exactly the parameters appended, names and values,
    in order. *)
Theorem buildQueryString_parses_back :
  forall f : AppliedFilters,
    parse_urlencoded (query_component (buildQueryString f)) = query_params f.
Proof. exact query_component_buildQueryString. Qed.

(** X3: [encodeURIComponent] is undone by percent-decoding, and its output
    holds none of the URL delimiters [& = # ? / +] nor a space. *)
Theorem encodeURIComponent_round_trip :
  forall s : string,
    percent_decode (encodeURIComponent s) = s /\
    forall x, In x uri_reserved -> has_char x (encodeURIComponent s) = false.
Proof.
  intro s; split; [apply uri_decode_encode | intros x Hx; apply uri_no_char, Hx].
Qed.

(** X4: whatever the user types, the URL built by [search] has a query
    component that parses to exactly one parameter, [q], whose value is the
    text typed. *)
Theorem search_endpoint_single_param :
  forall query : string,
    parse_urlencoded (query_component (search_endpoint query)) = [("q", query)].
Proof.
  intro query; unfold query_component, search_endpoint.
  set (e := encodeURIComponent query).
  change ("/search?q=" ++ e) with ("/search" ++ String "?" ("q=" ++ e)).
  rewrite split_at_first_app by reflexivity; cbn [snd].
  change ("q=" ++ e) with ("q" ++ String "=" e).
  unfold parse_urlencoded.
  rewrite split_on_no_sep
    by (rewrite has_char_app, orb_false_l; cbn [has_char];
        apply uri_no_char; simpl; tauto).
  change (filter truthy_str ["q" ++ String "=" e]) with ["q" ++ String "=" e].
  cbn [map].
  rewrite split_at_first_app by reflexivity.
  unfold form_decode.
  rewrite (plus_to_space_id e) by (apply uri_no_char; simpl; tauto).
  subst e; rewrite uri_decode_encode; reflexivity.
Qed.

(** X5: whatever the state name, the path built by [fetchDistrictsSummary]
    has exactly the segments [dashboard], [states], one segment that
    percent-decodes to the name, and [districts-summary]; it holds no [?]
    and no [#]. *)
Theorem districtsSummary_endpoint_segments :
  forall stateName : string,
    exists seg,
      split_on "/" (districtsSummary_endpoint stateName)
        = [""; "dashboard"; "states"; seg; "districts-summary"] /\
      percent_decode seg = stateName /\
      has_char "?" (districtsSummary_endpoint stateName) = false /\
      has_char "#" (districtsSummary_endpoint stateName) = false.
Proof.
  intro s; exists (encodeURIComponent s); unfold districtsSummary_endpoint.
  set (e := encodeURIComponent s).
  assert (Hs : has_char "/" e = false) by (apply uri_no_char; simpl; tauto).
  assert (Hq : has_char "?" e = false) by (apply uri_no_char; simpl; tauto).
  assert (Hh : has_char "#" e = false) by (apply uri_no_char; simpl; tauto).
  split; [|split; [apply uri_decode_encode|]].
  - change ("/dashboard/states/" ++ e ++ "/districts-summary")
      with ("" ++ String "/" ("dashboard" ++ String "/" ("states" ++ String "/"
              (e ++ String "/" "districts-summary")))).
    rewrite !split_on_app by (reflexivity || exact Hs).
    reflexivity.
  - rewrite !has_char_app, Hq, Hh; split; reflexivity.
Qed.

Lemma buildQueryString_injective_witness :
  let f := mkAppliedFilters (Some "Uttar Pradesh") None (Some 2025%Z) None None None None in
  let g := mkAppliedFilters (Some "Uttar Pradesh") (Some "") (Some 2025%Z) (Some 0%Z)
             None None None in
  buildQueryString f = buildQueryString g /\
  (query_params f = query_params g /\
   (forall fld, fieldTruthy f fld = fieldTruthy g fld) /\
   (truthy_opt_str (state f) = true -> state f = state g)).
Proof.
  cbv zeta; split; [reflexivity|].
  apply buildQueryString_injective; reflexivity.
Defined.

End EncodingExtras.

(* ------------------------------------------------------------------ *)
(** ** Authentication store and fetch wrappers *)

Module AuthFacts.
Import Auth.

Lemma getItem_app (k : string) (a b : SessionStorage) :
  getItem k (a ++ b)%list = match getItem k a with Some v => Some v | None => getItem k b end.
Proof.
  induction a as [|[k' v'] a IH]; simpl; [reflexivity|].
  destruct (String.eqb k' k); [reflexivity | exact IH].
Qed.

Lemma getItem_removeItem_same (k : string) (s : SessionStorage) :
  getItem k (removeItem k s) = None.
Proof.
  induction s as [|[k' v'] s IH]; simpl; [reflexivity|].
  unfold removeItem in *; simpl.
  destruct (String.eqb k' k) eqn:E; simpl; [exact IH|].
  rewrite E; exact IH.
Qed.

Lemma getItem_removeItem_other (k k' : string) (s : SessionStorage) :
  k <> k' -> getItem k (removeItem k' s) = getItem k s.
Proof.
  intro Hne; induction s as [|[k1 v1] s IH]; simpl; [reflexivity|].
  unfold removeItem in *; simpl.
  destruct (String.eqb k1 k') eqn:E1; simpl.
  - apply String.eqb_eq in E1; subst k1.
    assert (E : String.eqb k' k = false)
      by (apply String.eqb_neq; congruence).
    rewrite E; exact IH.
  - destruct (String.eqb k1 k); [reflexivity | exact IH].
Qed.

Lemma getItem_setItem_same (k v : string) (s : SessionStorage) :
  getItem k (setItem k v s) = Some v.
Proof.
  unfold setItem; rewrite getItem_app, getItem_removeItem_same; simpl.
  rewrite String.eqb_refl; reflexivity.
Qed.

Lemma getItem_setItem_other (k k' v : string) (s : SessionStorage) :
  k <> k' -> getItem k (setItem k' v s) = getItem k s.
Proof.
  intro Hne; unfold setItem; rewrite getItem_app, getItem_removeItem_other by exact Hne.
  destruct (getItem k s); [reflexivity|]; simpl.
  assert (E : String.eqb k' k = false) by (apply String.eqb_neq; congruence).
  rewrite E; reflexivity.
Qed.

Lemma getAuthToken_setAuthToken_eq (tok : option string) (st : AuthStore) :
  getAuthToken (setAuthToken tok st) = if truthy_opt_str tok then tok else None.
Proof.
  unfold getAuthToken, setAuthToken; simpl.
  destruct tok as [t|]; simpl.
  - destruct (truthy_str t) eqn:E; [reflexivity|].
    apply getItem_removeItem_same.
  - apply getItem_removeItem_same.
Qed.

Section Store.
Context {Json : Type} `{JsonModel Json}.

Lemma getAuthToken_setStoredUser (u : option Json) (st : AuthStore) :
  getAuthToken (setStoredUser u st) = getAuthToken st.
Proof.
  unfold getAuthToken, setStoredUser; simpl.
  destruct (truthy_opt_str (accessToken st)); [reflexivity|].
  destruct u as [u|]; [destruct (json_truthy u)|];
    first [ apply getItem_setItem_other | apply getItem_removeItem_other ];
    discriminate.
Qed.

Lemma getStoredUser_setStoredUser_eq (u : Json) (st : AuthStore) :
  json_truthy u = true -> truthy_str (stringify u) = true ->
  getStoredUser (setStoredUser (Some u) st) = parse (stringify u).
Proof.
  intros Hu Hs; unfold getStoredUser, setStoredUser; simpl.
  rewrite Hu, getItem_setItem_same, Hs; reflexivity.
Qed.

Lemma clearAuthData_empty (st : AuthStore) :
  getAuthToken (clearAuthData st) = None /\ getStoredUser (clearAuthData st) = None.
Proof.
  unfold getAuthToken, getStoredUser, clearAuthData; simpl; split.
  - rewrite getItem_removeItem_other by discriminate.
    apply getItem_removeItem_same.
  - rewrite getItem_removeItem_same; reflexivity.
Qed.

(** X6: setting the auth token and reading it back gives the token when it
    is a non-empty string, and no token at all when it is [null] or the
    empty string, whatever was stored before. *)
Theorem getAuthToken_after_setAuthToken :
  forall (tok : option string) (st : AuthStore),
    getAuthToken (setAuthToken tok st) = if truthy_opt_str tok then tok else None.
Proof. exact getAuthToken_setAuthToken_eq. Qed.

(** X7: after [clearAuthData] there is neither a token nor a stored user,
    and every other session-storage key keeps its value. *)
Theorem clearAuthData_clears_only_auth :
  forall st : AuthStore,
    getAuthToken (clearAuthData st) = None /\
    getStoredUser (clearAuthData st) = None /\
    (forall k, k <> "auth_token" -> k <> "auth_user" ->
       getItem k (sessionStorage (clearAuthData st)) = getItem k (sessionStorage st)).
Proof.
  intro st; destruct (clearAuthData_empty st) as [H1 H2].
  split; [exact H1|]; split; [exact H2|].
  intros k Ht Hu; unfold clearAuthData; simpl.
  rewrite !getItem_removeItem_other by assumption; reflexivity.
Qed.

(** X8: a user stored with [setStoredUser] is read back by [getStoredUser]
    when its JSON serialisation is non-empty and parses back to it; storing
    a user never changes the auth token. *)
Theorem stored_user_round_trip :
  forall (u : Json) (st : AuthStore),
    json_truthy u = true -> truthy_str (stringify u) = true ->
    parse (stringify u) = Some u ->
    getStoredUser (setStoredUser (Some u) st) = Some u /\
    getAuthToken (setStoredUser (Some u) st) = getAuthToken st.
Proof.
  intros u st Hu Hs Hp; split.
  - rewrite getStoredUser_setStoredUser_eq by assumption; exact Hp.
  - apply getAuthToken_setStoredUser.
Qed.

End Store.

Section Fetch.
Context {Json : Type} `{JsonModel Json}.
Variable API_BASE_URL : string.

(** X9: [logout] always ends with no token and no stored user, whatever the
    server answers; it rejects exactly when the logout request rejects,
    with the same error. *)
Theorem logout_always_clears :
  forall (fetch : @Fetch Json) (st : AuthStore),
    getAuthToken (fst (logout API_BASE_URL fetch st)) = None /\
    getStoredUser (fst (logout API_BASE_URL fetch st)) = None /\
    (forall e, snd (logout API_BASE_URL fetch st) = Rejected e <->
               authFetch API_BASE_URL fetch "/auth/logout" (POST None) st = Rejected e).
Proof.
  intros fetch st; unfold logout; simpl.
  destruct (clearAuthData_empty st) as [H1 H2].
  split; [exact H1|]; split; [exact H2|].
  intro e; destruct (authFetch API_BASE_URL fetch "/auth/logout" (POST None) st);
    split; intro Hx; congruence.
Qed.


(** X11: on a 401 answer [apiFetch] clears the token and the stored user,
    dispatches one [auth:unauthorized] event and rejects with the
    session-expired message. *)
Theorem apiFetch_401 :
  forall (fetch : @Fetch Json) endpoint options (w : World) (r : @Response Json),
    fetch (API_BASE_URL ++ endpoint) (requestInit (getAuthToken (auth w)) options)
      = Resolved r ->
    status r = 401%Z ->
    let res := apiFetch API_BASE_URL fetch endpoint options w in
    snd res = Rejected (ErrorObj "Session expired. Please login again.") /\
    getAuthToken (auth (fst res)) = None /\
    getStoredUser (auth (fst res)) = None /\
    dispatched (fst res) = (dispatched w ++ ["auth:unauthorized"])%list.
Proof.
  intros fetch endpoint options w r Hf Hs; unfold apiFetch; cbv zeta.
  rewrite Hf, Hs; simpl.
  destruct (clearAuthData_empty (auth w)) as [H1 H2].
  repeat split; assumption || reflexivity.
Qed.

(** X12: [apiFetch] resolves only when the request resolved with a 2xx
    status and a parsed JSON body, with that body as its value; it then
    leaves the auth store and the dispatched events as they were. *)
Theorem apiFetch_resolves_only_ok :
  forall (fetch : @Fetch Json) endpoint options (w : World) (v : Json),
    snd (apiFetch API_BASE_URL fetch endpoint options w) = Resolved v ->
    exists r,
      fetch (API_BASE_URL ++ endpoint) (requestInit (getAuthToken (auth w)) options)
        = Resolved r /\
      response_ok r = true /\ json r = Resolved v /\
      fst (apiFetch API_BASE_URL fetch endpoint options w) = w.
Proof.
  intros fetch endpoint options w v.
  unfold apiFetch; cbv zeta.
  destruct (fetch (API_BASE_URL ++ endpoint) (requestInit (getAuthToken (auth w)) options))
    as [r|e]; simpl; [|discriminate].
  destruct (Z.eqb (status r) 401); simpl; [discriminate|].
  destruct (response_ok r) eqn:Ok; simpl.
  - intro Hj; exists r; repeat split; assumption || reflexivity.
  - destruct (text r); discriminate.
Qed.

(** X13: [login] changes the auth store only when the login request
    resolves; the token it then leaves is the response's [accessToken]
    when non-empty, and none otherwise. *)
Theorem login_store :
  forall (fetch : @Fetch Json) (body : string) (st : AuthStore),
    match snd (login API_BASE_URL fetch body st) with
    | Rejected _ => fst (login API_BASE_URL fetch body st) = st
    | Resolved v =>
        getAuthToken (fst (login API_BASE_URL fetch body st))
          = if truthy_opt_str (accessToken_of v) then accessToken_of v else None
    end.
Proof.
  intros fetch body st; unfold login.
  destruct (authFetch API_BASE_URL fetch "/auth/login" (POST (Some body)) st)
    as [v|e]; simpl; [|reflexivity].
  rewrite getAuthToken_setStoredUser; apply getAuthToken_setAuthToken_eq.
Qed.

End Fetch.

(** X14: without caller headers the request carries [Content-Type:
    application/json], followed by [Authorization: Bearer <token>] exactly
    when the token is a non-empty string; caller headers replace these
    defaults entirely. *)
Theorem requestInit_headers :
  forall (token : option string) (o : RequestInit),
    ri_headers (requestInit token None)
      = Some (app [("Content-Type", "application/json")]
                (match token with
                 | Some t => if truthy_str t then [("Authorization", "Bearer " ++ t)]
                             else []
                 | None => []
                 end)) /\
    (ri_headers o = None -> ri_headers (requestInit token (Some o))
                            = ri_headers (requestInit token None)) /\
    (forall h, ri_headers o = Some h -> ri_headers (requestInit token (Some o)) = Some h).
Proof.
  intros token o; split; [|split].
  - unfold requestInit, request_headers; cbn [ri_headers].
    destruct token as [t|]; [destruct (truthy_str t)|]; reflexivity.
  - intro Hn; unfold requestInit, request_headers; simpl; rewrite Hn; reflexivity.
  - intros h Hh; unfold requestInit; simpl; rewrite Hh; reflexivity.
Qed.


(** Demo display names. *)
Lemma capitalize_char_keeps (b : bool) (c : ascii) :
  forallb (fun x => Bool.eqb (Ascii.eqb x (if negb b && is_word c then ascii_upper c else c))
                             (Ascii.eqb x c)) ["."; "_"; "@"]%char = true.
Proof. destruct b; destruct c as [[] [] [] [] [] [] [] []]; reflexivity. Qed.

Lemma has_char_capitalize_words (x : ascii) (b : bool) (s : string) :
  In x ["."; "_"; "@"]%char ->
  has_char x (capitalize_words b s) = has_char x s.
Proof.
  intro Hx; revert b; induction s as [|c s IH]; intro b; [reflexivity|].
  cbn [capitalize_words has_char]; rewrite IH; f_equal.
  pose proof (proj1 (forallb_forall _ _) (capitalize_char_keeps b c) x Hx) as E.
  apply Bool.eqb_prop in E; exact E.
Qed.

Lemma replace_char_facts (c : ascii) :
  let c' := if Ascii.eqb c "." || Ascii.eqb c "_" then " "%char else c in
  Ascii.eqb "." c' = false /\ Ascii.eqb "_" c' = false /\ Ascii.eqb "@" c' = Ascii.eqb "@" c.
Proof. destruct c as [[] [] [] [] [] [] [] []]; repeat split; reflexivity. Qed.

Lemma has_char_replace (s : string) :
  has_char "." (replace_dot_underscore s) = false /\
  has_char "_" (replace_dot_underscore s) = false /\
  has_char "@" (replace_dot_underscore s) = has_char "@" s.
Proof.
  induction s as [|c s [IH1 [IH2 IH3]]]; [repeat split|].
  cbn [replace_dot_underscore has_char].
  destruct (replace_char_facts c) as [E1 [E2 E3]].
  rewrite E1, E2, E3, IH1, IH2, IH3; repeat split.
Qed.

Lemma has_char_split_at_first (x : ascii) (s : string) :
  has_char x (fst (split_at_first x s)) = false.
Proof.
  induction s as [|c s IH]; [reflexivity|]; cbn [split_at_first].
  destruct (Ascii.eqb c x) eqn:E; [reflexivity|].
  destruct (split_at_first x s) as [n v]; cbn [fst has_char] in *.
  rewrite Ascii.eqb_sym, E, IH; reflexivity.
Qed.

Lemma capitalize_first_char (c : ascii) :
  let c' := if negb false && is_word c then ascii_upper c else c in
  negb (Nat.leb 97 (nat_of_ascii c') && Nat.leb (nat_of_ascii c') 122) = true.
Proof. destruct c as [[] [] [] [] [] [] [] []]; reflexivity. Qed.

(** X15: the display name made up for the demo user holds no [.], no [_]
    and no [@], and does not start with a lowercase letter. *)
Theorem demoName_shape :
  forall email : string,
    has_char "." (demoName email) = false /\
    has_char "_" (demoName email) = false /\
    has_char "@" (demoName email) = false /\
    (forall c r, demoName email = String c r ->
       negb (Nat.leb 97 (nat_of_ascii c) && Nat.leb (nat_of_ascii c) 122) = true).
Proof.
  intro email; unfold demoName.
  destruct (has_char_replace (fst (split_at_first "@" email))) as [H1 [H2 H3]].
  rewrite !has_char_capitalize_words by (simpl; tauto).
  rewrite H1, H2, H3, has_char_split_at_first.
  repeat split.
  intros c r.
  destruct (replace_dot_underscore (fst (split_at_first "@" email))) as [|c0 r0];
    cbn [capitalize_words]; [discriminate|].
  intro E; injection E as <- _; apply capitalize_first_char.
Qed.

Section Context.
Context {Json : Type} `{JsonModel Json}.
Variable API_BASE_URL : string.
Variable user_json : User -> Json.

(** X16: [AuthProvider]'s [login] always ends signed in, not loading and
    without error; when the API login rejects, the stored token is
    [demo-token-<now>] and the signed-in user is the demo user built from
    the typed e-mail. *)
Theorem ctx_login_always_signs_in :
  forall (fetch : @Fetch Json) (now : Z) (emailStr body : string) (st : AuthStore),
    let res := ctx_login API_BASE_URL user_json fetch now emailStr body st in
    isAuthenticated (snd res) = true /\ isLoading (snd res) = false /\
    error (snd res) = None /\
    (forall e, snd (login API_BASE_URL fetch body st) = Rejected e ->
       getAuthToken (fst res) = Some ("demo-token-" ++ number_toString now) /\
       ctx_user (snd res) = Some (user_json (demoUser emailStr))).
Proof.
  intros fetch now emailStr body st; cbv zeta; unfold ctx_login.
  destruct (login API_BASE_URL fetch body st) as [st' [v|e0]]; cbn [snd fst].
  - split; [reflexivity|]; split; [reflexivity|]; split; [reflexivity|].
    intros e1 He; discriminate.
  - split; [reflexivity|]; split; [reflexivity|]; split; [reflexivity|].
    intros e1 _; split; [|reflexivity].
    rewrite getAuthToken_setStoredUser, getAuthToken_setAuthToken_eq; reflexivity.
Qed.


(** X18: [initAuth] signs in only when session storage yields a non-empty
    token and a truthy stored user; when it ends signed out, the store is
    either unchanged or left with no token and no stored user. *)
Theorem initAuth_outcomes :
  forall (fetch : @Fetch Json) (st : AuthStore),
    let res := initAuth API_BASE_URL fetch st in
    (isAuthenticated (snd res) = true ->
       exists t u, getAuthToken st = Some t /\ truthy_str t = true /\
                   getStoredUser st = Some u /\ json_truthy u = true) /\
    (isAuthenticated (snd res) = false ->
       snd res = signedOut /\
       (fst res = st \/
        getAuthToken (fst res) = None /\ getStoredUser (fst res) = None)).
Proof.
  intros fetch st; cbv zeta; unfold initAuth, initializeAuth.
  destruct (getAuthToken st) as [t|] eqn:Et;
    [destruct (getStoredUser st) as [u|] eqn:Eu|].
  - destruct (truthy_str t && json_truthy u) eqn:Eg.
    + apply andb_true_iff in Eg; destruct Eg as [Gt Gu].
      destruct (String.prefix "demo-token-" t).
      * split; [intros _; exists t, u; tauto | discriminate].
      * destruct (getCurrentUser API_BASE_URL fetch st) as [st' [cu|e]]; cbn [fst snd].
        -- split; [intros _; exists t, u; tauto | discriminate].
        -- split; [discriminate|]; intros _; split; [reflexivity|].
           right; apply clearAuthData_empty.
    + split; [discriminate|]; intros _; split; [reflexivity | left; reflexivity].
  - split; [discriminate|]; intros _; split; [reflexivity | left; reflexivity].
  - split; [discriminate|]; intros _; split; [reflexivity | left; reflexivity].
Qed.

End Context.

(* Concrete runs of the theorems above. *)
#[local] Existing Instance string_json.

Lemma stored_user_round_trip_witness :
  let st := mkAuthStore (Some "tok") [("theme", "dark")] in
  json_truthy "alice" = true /\ truthy_str (stringify "alice") = true /\
  parse (stringify "alice") = Some "alice" /\
  getStoredUser (setStoredUser (Some "alice") st) = Some "alice" /\
  getAuthToken (setStoredUser (Some "alice") st) = getAuthToken st.
Proof.
  cbv zeta; split; [reflexivity|]; split; [reflexivity|]; split; [reflexivity|].
  apply (stored_user_round_trip "alice" (mkAuthStore (Some "tok") [("theme", "dark")]));
    reflexivity.
Defined.


Lemma apiFetch_401_witness :
  let r := @mkResponse string 401 (Resolved "") (Rejected NonError) in
  let w := mkWorld (mkAuthStore (Some "tok") [("auth_user", "alice")]) [] in
  fetch_always (Resolved r) ("/api" ++ "/alerts/notifications")
    (requestInit (getAuthToken (auth w)) None) = Resolved r /\
  status r = 401%Z /\
  let res := apiFetch "/api" (fetch_always (Resolved r)) "/alerts/notifications" None w in
  snd res = Rejected (ErrorObj "Session expired. Please login again.") /\
  getAuthToken (auth (fst res)) = None /\
  getStoredUser (auth (fst res)) = None /\
  dispatched (fst res) = (dispatched w ++ ["auth:unauthorized"])%list.
Proof.
  cbv zeta; split; [reflexivity|]; split; [reflexivity|].
  apply (apiFetch_401 "/api"
           (fetch_always (Resolved (mkResponse 401 (Resolved "") (Rejected NonError))))
           "/alerts/notifications" None
           (mkWorld (mkAuthStore (Some "tok") [("auth_user", "alice")]) [])
           (mkResponse 401 (Resolved "") (Rejected NonError)));
    reflexivity.
Defined.

Lemma apiFetch_resolves_only_ok_witness :
  let r := @mkResponse string 200 (Resolved "{}") (Resolved "{}") in
  let w := mkWorld (mkAuthStore None []) [] in
  snd (apiFetch "/api" (fetch_always (Resolved r)) "/dashboard/overview" None w)
    = Resolved "{}" /\
  exists r',
    fetch_always (Resolved r) ("/api" ++ "/dashboard/overview")
      (requestInit (getAuthToken (auth w)) None) = Resolved r' /\
    response_ok r' = true /\ json r' = Resolved "{}" /\
    fst (apiFetch "/api" (fetch_always (Resolved r)) "/dashboard/overview" None w) = w.
Proof.
  cbv zeta; split; [reflexivity|].
  apply (apiFetch_resolves_only_ok "/api"
           (fetch_always (Resolved (mkResponse 200 (Resolved "{}") (Resolved "{}"))))
           "/dashboard/overview" None (mkWorld (mkAuthStore None []) []) "{}").
  reflexivity.
Defined.


End AuthFacts.

(* ------------------------------------------------------------------ *)
(** ** Header: notifications, result dropdown, initials *)

Module HeaderExtras.
Import Header.

Lemma unreadOf_map_markRead (ns : list Notification) :
  unreadOf (map markRead ns) = 0%Z.
Proof. unfold unreadOf; induction ns as [|n ns IH]; simpl; [reflexivity | exact IH]. Qed.

(** X19: whether the request succeeds or fails, marking all notifications
    read keeps the same notifications in the same order, all read, with an
    unread count of 0 that matches them. *)
Theorem handleMarkAllRead_all_read :
  forall (outcome : Settled unit) (ns : list Notification) (unreadCount : Z),
    let res := handleMarkAllRead outcome ns unreadCount in
    snd res = 0%Z /\ unreadOf (fst res) = snd res /\
    map n_id (fst res) = map n_id ns /\
    Forall (fun n => isRead n = true) (fst res).
Proof.
  intros outcome ns c; cbv zeta.
  assert (Hg : snd (map markRead ns, 0%Z) = 0%Z /\
               unreadOf (fst (map markRead ns, 0%Z)) = snd (map markRead ns, 0%Z) /\
               map n_id (fst (map markRead ns, 0%Z)) = map n_id ns /\
               Forall (fun n => isRead n = true) (fst (map markRead ns, 0%Z))).
  { cbn [fst snd]; split; [reflexivity|]; split; [apply unreadOf_map_markRead|].
    split; [rewrite map_map; reflexivity|].
    apply Forall_forall; intros n Hn; apply in_map_iff in Hn.
    destruct Hn as [n0 [<- _]]; reflexivity. }
  destruct outcome; exact Hg.
Qed.

Lemma filter_or_perm {A} (p q : A -> bool) (l : list A) :
  (forall x, p x = true -> q x = false) ->
  Permutation (filter (fun x => p x || q x) l) (filter p l ++ filter q l).
Proof.
  intro Hx; induction l as [|x l IH]; simpl; [constructor|].
  destruct (p x) eqn:Ep; simpl.
  - rewrite (Hx x Ep); constructor; exact IH.
  - destruct (q x) eqn:Eq; simpl; [|exact IH].
    apply Permutation_cons_app; exact IH.
Qed.

Lemma js_eqb_true (a b : js_string) : js_eqb a b = true <-> a = b.
Proof. unfold js_eqb; destruct (list_eq_dec Z.eq_dec a b); split; congruence. Qed.

Lemma group_nonempty_irrelevant {A} (g : list A) :
  (if Nat.eqb (length g) 0 then [] else g) = g.
Proof. destruct g; reflexivity. Qed.

Lemma renderedResults_groups (rs : list SearchResult) :
  renderedResults true rs =
  (filter (fun r => js_eqb (sr_type r) (js "state")) rs ++
   filter (fun r => js_eqb (sr_type r) (js "district")) rs ++
   filter (fun r => js_eqb (sr_type r) (js "alert")) rs)%list.
Proof.
  unfold renderedResults; destruct rs as [|r rs]; [reflexivity|].
  cbn [andb length Nat.ltb Nat.leb].
  unfold resultTypes; cbn [flat_map].
  rewrite !group_nonempty_irrelevant, app_nil_r; reflexivity.
Qed.

(** X20: the dropdown shows each search result of type [state], [district]
    or [alert] exactly once, grouped by type, and never one of another
    type; within a type the order of the results is kept. *)
Theorem renderedResults_shows_known_once :
  forall rs : list SearchResult,
    Permutation (renderedResults true rs)
      (filter (fun r => existsb (js_eqb (sr_type r)) resultTypes) rs) /\
    (forall type, In type resultTypes ->
       filter (fun r => js_eqb (sr_type r) type) (renderedResults true rs)
       = filter (fun r => js_eqb (sr_type r) type) rs).
Proof.
  intro rs.
  assert (Hd : forall t t' r, t <> t' -> js_eqb (sr_type r) t = true ->
                             js_eqb (sr_type r) t' = false).
  { intros t t' r Hne Ht; apply js_eqb_true in Ht.
    destruct (js_eqb (sr_type r) t') eqn:E; [|reflexivity].
    apply js_eqb_true in E; congruence. }
  rewrite renderedResults_groups; split.
  - rewrite (filter_ext (fun r => existsb (js_eqb (sr_type r)) resultTypes)
                       (fun r => js_eqb (sr_type r) (js "state")
                                  || (js_eqb (sr_type r) (js "district")
                                      || js_eqb (sr_type r) (js "alert"))))
      by (intro r; unfold resultTypes; cbn [existsb]; rewrite orb_false_r; reflexivity).
    symmetry; eapply Permutation_trans; [apply filter_or_perm|].
    + intros r Hr; apply orb_false_iff; split; apply (Hd (js "state") _ r);
        try exact Hr; discriminate.
    + apply Permutation_app_head, filter_or_perm.
      intros r Hr; apply (Hd (js "district") _ r); [discriminate | exact Hr].
  - intros type Ht.
    assert (Hff : forall t t', filter (fun r => js_eqb (sr_type r) t)
                                 (filter (fun r => js_eqb (sr_type r) t') rs)
                               = if js_eqb t t' then filter (fun r => js_eqb (sr_type r) t) rs
                                 else []).
    { intros t t'; induction rs as [|r rs' IH]; [destruct (js_eqb t t'); reflexivity|].
      cbn [filter].
      destruct (js_eqb (sr_type r) t') eqn:E'.
      - cbn [filter]; rewrite IH.
        destruct (js_eqb t t') eqn:Ett.
        + apply js_eqb_true in Ett; subst t'; rewrite E'; reflexivity.
        + destruct (js_eqb (sr_type r) t) eqn:Et; [|reflexivity].
          apply js_eqb_true in Et; apply js_eqb_true in E'.
          assert (Hc : js_eqb t t' = true) by (apply js_eqb_true; congruence).
          congruence.
      - rewrite IH; destruct (js_eqb t t') eqn:Ett; [|reflexivity].
        apply js_eqb_true in Ett; subst t'; rewrite E'; reflexivity. }
    rewrite !filter_app, !Hff.
    unfold resultTypes in Ht; simpl in Ht.
    destruct Ht as [<- | [<- | [<- | []]]]; vm_compute js_eqb;
      rewrite ?app_nil_r; reflexivity.
Qed.

Lemma js_split_spaces (n : js_string) :
  Forall (fun c => c = 32%Z) n -> Forall (fun p => p = []) (js_split 32 n).
Proof.
  induction n as [|c n IH]; intro H; simpl; [repeat constructor|].
  inversion H as [|? ? Hc Hn]; subst c; simpl.
  constructor; [reflexivity | exact (IH Hn)].
Qed.

Lemma concat_heads_empty (ps : list js_string) :
  Forall (fun p => p = []) ps ->
  concat (map (fun n => match n with [] => [] | c :: _ => [c] end) ps) = [].
Proof.
  induction 1 as [|p ps Hp _ IH]; [reflexivity|]; subst p; exact IH.
Qed.

(** X21: the avatar initials never have more than two code units; they are
    [AA] when the user or its name is missing or empty, and a name made of
    spaces only gives no initial letter (the upper-casing of the empty
    string, cut to two units). *)
Theorem userInitials_shape :
  forall (toUpperCase : js_string -> js_string) (userName : option js_string),
    (length (userInitials toUpperCase userName) <= 2)%nat /\
    userInitials toUpperCase None = js "AA" /\
    userInitials toUpperCase (Some []) = js "AA" /\
    (forall name, name <> [] -> Forall (fun c => c = 32%Z) name ->
       userInitials toUpperCase (Some name) = firstn 2 (toUpperCase [])).
Proof.
  intros toUpperCase userName; split; [|split; [reflexivity | split; [reflexivity|]]].
  - unfold userInitials; destruct userName as [name|]; [|simpl; lia].
    destruct (Nat.eqb (length name) 0); [simpl; lia|].
    rewrite length_firstn; lia.
  - intros name Hne Hs; unfold userInitials.
    destruct name as [|c name]; [congruence|]; cbn [length Nat.eqb].
    rewrite concat_heads_empty by (apply js_split_spaces; exact Hs); reflexivity.
Qed.

End HeaderExtras.

(* ------------------------------------------------------------------ *)
(** ** The filter bar *)

Module FilterBarFacts.

Lemma hasActiveFilters_false (f : AppliedFilters) :
  hasActiveFilters f = false <-> f = INITIAL_FILTERS.
Proof.
  destruct f as [s d y m t g i]; unfold hasActiveFilters; cbn [state district year
    month metricType ageGroup indexType]; split.
  - intro H; repeat (apply orb_false_iff in H; destruct H as [H ?]).
    destruct s, d, y, m, t, g, i; try discriminate; reflexivity.
  - intro H; injection H; intros; subst; reflexivity.
Qed.

(** X22: the "Clear all" button is shown exactly when some filter holds a
    value; after a click on it no filter holds a value and the query
    string is empty. *)
Theorem clearAll_resets :
  forall f : AppliedFilters,
    (hasActiveFilters f = false <-> f = INITIAL_FILTERS) /\
    hasActiveFilters (runFilterBar f [ClickClearAll]) = false /\
    buildQueryString (runFilterBar f [ClickClearAll]) = "".
Proof.
  intro f; split; [apply hasActiveFilters_false|].
  unfold runFilterBar; cbn [fold_left filterBarStep].
  destruct (hasActiveFilters f) eqn:E.
  - split; reflexivity.
  - apply hasActiveFilters_false in E; subst f; split; reflexivity.
Qed.

Lemma value_or_undefined_not_empty (v : string) : value_or_undefined v <> Some "".
Proof. unfold value_or_undefined; destruct v; simpl; congruence. Qed.

Lemma no_empty_codes_step (f : AppliedFilters) (ev : FilterBarEvent) :
  no_empty_codes f -> no_empty_codes (filterBarStep f ev).
Proof.
  intros [Hs Hd]; destruct ev; cbn [filterBarStep].
  - unfold setStateFilter; cbv zeta.
    destruct (negb (opt_str_eqb (value_or_undefined value) (state f)));
      split; cbn [state district]; try apply value_or_undefined_not_empty;
      congruence.
  - split; [exact Hs | apply value_or_undefined_not_empty].
  - split; assumption.
  - split; assumption.
  - split; assumption.
  - split; assumption.
  - split; assumption.
  - destruct (hasActiveFilters f); [split; discriminate | split; assumption].
Qed.

Lemma no_empty_codes_run (evs : list FilterBarEvent) (f : AppliedFilters) :
  no_empty_codes f -> no_empty_codes (runFilterBar f evs).
Proof.
  unfold runFilterBar; revert f; induction evs as [|ev evs IH]; intros f Hf;
    [exact Hf|]; cbn [fold_left]; apply IH, no_empty_codes_step, Hf.
Qed.

(** X23: through the filter bar the state and district filters never hold
    the empty string, so for every state reached this way the district
    list is the districts of the selected state, or all districts when
    none is selected, and the district select offers only districts of the
    selected state. *)
Theorem filterBar_districts_of_state :
  forall (evs : list FilterBarEvent) (o : FilterOptions),
    let f := runFilterBar INITIAL_FILTERS evs in
    state f <> Some "" /\ district f <> Some "" /\
    filteredDistricts (Some o) f
      = match state f with
        | Some s => filter (fun d => String.eqb (stateCode d) s) (districts o)
        | None => districts o
        end /\
    (forall s d, state f = Some s ->
       In d (districtChoices (Some (filteredDistricts (Some o) f)) (Some o)) ->
       stateCode d = s).
Proof.
  intros evs o; cbv zeta.
  destruct (no_empty_codes_run evs INITIAL_FILTERS) as [Hs Hd];
    [split; discriminate|].
  assert (Hfd : filteredDistricts (Some o) (runFilterBar INITIAL_FILTERS evs)
      = match state (runFilterBar INITIAL_FILTERS evs) with
        | Some s => filter (fun d => String.eqb (stateCode d) s) (districts o)
        | None => districts o
        end).
  { unfold filteredDistricts.
    destruct (state (runFilterBar INITIAL_FILTERS evs)) as [s|]; [|reflexivity].
    destruct s; [congruence | reflexivity]. }
  split; [exact Hs|]; split; [exact Hd|]; split; [exact Hfd|].
  intros s d Hst Hin; unfold districtChoices in Hin.
  rewrite Hfd, Hst in Hin; apply filter_In in Hin.
  apply String.eqb_eq; tauto.
Qed.

End FilterBarFacts.
